(** * Gravity simulator (gravity_sim_3Dgrid): physics core

    A shallow embedding of the physics core of the 3D-grid gravity
    simulator: class [Object] (constructor, [UpdatePos], [accelerate],
    [CheckCollision], [UpdateTrail]), the per-frame body of [main]
    (mass growth of the body being created, the pairwise gravity and
    collision loop, integration), the GLFW callbacks that mutate the body
    set, and [CreateGridVertices].

    Number model.  The C++ [float] and [double] values are read with their
    real-number semantics: every arithmetic operation is the exact
    operation on [R], so rounding, overflow and the difference between
    single and double precision are outside the model.  The one
    floating-point effect the model keeps is the invalid-operation result
    of [sqrt] on a negative argument in [CreateGridVertices]: there a
    value is an [option R], with [None] standing for NaN.

    OpenGL handles ([VAO], [VBO], [vertexCount]) and colours carry no
    physics and are left out of the records; the camera globals are
    modelled on their own, in [Camera]. *)

From Stdlib Require Import Reals Lra Lia List Bool Arith ZArith.
Import ListNotations.

Open Scope R_scope.

(** ** Numeric prelude *)

(** [const double G = 6.6743e-11] and [const float c = 299792458.0]. *)
Definition G : R := 66743 / 10 ^ 15.
Definition c : R := 299792458.

(** The literal [3.14159265359] the source uses for pi. *)
Definition PI_LIT : R := 314159265359 / 10 ^ 11.

(** [pow(x, y)] of <cmath> on a non-negative base and a positive exponent:
    [exp (y * ln x)] for [x > 0] and [0] for [x = 0].  The source only
    calls it on sums of squares and on [3 * mass / density / (4 pi)]. *)
Definition pow (x y : R) : R :=
  if Req_dec_T x 0 then 0 else Rpower x y.

(** [glm::vec3]. *)
Record vec3 : Type := mkVec3 { vx : R; vy : R; vz : R }.

Definition vadd (a b : vec3) : vec3 :=
  mkVec3 (vx a + vx b) (vy a + vy b) (vz a + vz b).
Definition vsub (a b : vec3) : vec3 :=
  mkVec3 (vx a - vx b) (vy a - vy b) (vz a - vz b).
Definition vscale (k : R) (a : vec3) : vec3 :=
  mkVec3 (vx a * k) (vy a * k) (vz a * k).
Definition vneg (a : vec3) : vec3 := mkVec3 (- vx a) (- vy a) (- vz a).
Definition vnorm (a : vec3) : R :=
  sqrt (vx a * vx a + vy a * vy a + vz a * vz a).

(** The last [n] elements of a list, oldest first. *)
Definition lastn {A : Type} (n : nat) (l : list A) : list A :=
  skipn (length l - n) l.

(** ** class Object *)

(** [int maxTrailLength = 30]: a member with a default initialiser that
    nothing ever assigns. *)
Definition maxTrailLength : Z := 30.

(** The physics members of [Object].  A [TrailSphere] is kept as its
    [position]. *)
Record Object : Type := mkObj {
  position : vec3;
  velocity : vec3;
  Initalizing : bool;
  Launched : bool;
  mass : R;
  density : R;
  radius : R;
  trailSpheres : list vec3;
  hasTrail : bool
}.

Definition set_position (o : Object) (p : vec3) : Object :=
  mkObj p (velocity o) (Initalizing o) (Launched o) (mass o) (density o)
        (radius o) (trailSpheres o) (hasTrail o).
Definition set_velocity (o : Object) (v : vec3) : Object :=
  mkObj (position o) v (Initalizing o) (Launched o) (mass o) (density o)
        (radius o) (trailSpheres o) (hasTrail o).
Definition set_mass (o : Object) (m : R) : Object :=
  mkObj (position o) (velocity o) (Initalizing o) (Launched o) m (density o)
        (radius o) (trailSpheres o) (hasTrail o).
Definition set_radius (o : Object) (r : R) : Object :=
  mkObj (position o) (velocity o) (Initalizing o) (Launched o) (mass o)
        (density o) r (trailSpheres o) (hasTrail o).
Definition set_trailSpheres (o : Object) (t : list vec3) : Object :=
  mkObj (position o) (velocity o) (Initalizing o) (Launched o) (mass o)
        (density o) (radius o) t (hasTrail o).
Definition set_hasTrail (o : Object) (b : bool) : Object :=
  mkObj (position o) (velocity o) (Initalizing o) (Launched o) (mass o)
        (density o) (radius o) (trailSpheres o) b.
Definition set_Initalizing (o : Object) (b : bool) : Object :=
  mkObj (position o) (velocity o) b (Launched o) (mass o) (density o)
        (radius o) (trailSpheres o) (hasTrail o).
Definition set_Launched (o : Object) (b : bool) : Object :=
  mkObj (position o) (velocity o) (Initalizing o) b (mass o) (density o)
        (radius o) (trailSpheres o) (hasTrail o).

(** The expression every radius assignment of the source evaluates:
    [pow((3 * mass / density) / (4 * 3.14159265359), 1.0f/3.0f) / 100000]. *)
Definition radius_of (m d : R) : R :=
  pow ((3 * m / d) / (4 * PI_LIT)) (1 / 3) / 100000.

(** [Object::Object(initPosition, initVelocity, mass, density = 3344)]. *)
Definition new_Object (initPosition initVelocity : vec3) (m d : R) : Object :=
  mkObj initPosition initVelocity false false m d (radius_of m d) [] false.

(** [static int frameCount] of [UpdateTrail]: one counter for the whole
    process.  [frameCount++] on a 32-bit [int]; the wrap-around of the
    usual two's-complement implementation is written out. *)
Definition int_wrap (z : Z) : Z :=
  ((z + 2 ^ 31) mod 2 ^ 32 - 2 ^ 31)%Z.

(** [Object::UpdateTrail], threading the static counter. *)
Definition UpdateTrail (frameCount : Z) (o : Object) : Z * Object :=
  if negb (hasTrail o) then (frameCount, o)
  else
    let frameCount := int_wrap (frameCount + 1) in
    if (Z.rem frameCount 5 =? 0)%Z then
      let pushed := trailSpheres o ++ [position o] in
      let kept :=
        if (Z.of_nat (length pushed) >? maxTrailLength)%Z
        then tl pushed            (* trailSpheres.erase(trailSpheres.begin()) *)
        else pushed in
      (frameCount, set_trailSpheres o kept)
    else (frameCount, o).

(** [Object::UpdatePos], with the global [simulationSpeed] as an argument. *)
Definition UpdatePos (simulationSpeed : R) (frameCount : Z) (o : Object)
  : Z * Object :=
  let p := position o in
  let v := velocity o in
  let o1 := set_position o
              (mkVec3 (vx p + vx v / 94 * simulationSpeed)
                      (vy p + vy v / 94 * simulationSpeed)
                      (vz p + vz v / 94 * simulationSpeed)) in
  let o2 := set_radius o1 (radius_of (mass o1) (density o1)) in
  if hasTrail o2 then UpdateTrail frameCount o2 else (frameCount, o2).

(** [Object::accelerate]. *)
Definition accelerate (simulationSpeed : R) (o : Object) (a : vec3) : Object :=
  let v := velocity o in
  set_velocity o
    (mkVec3 (vx v + vx a / 96 * simulationSpeed)
            (vy v + vy a / 96 * simulationSpeed)
            (vz v + vz a / 96 * simulationSpeed)).

(** [Object::CheckCollision]. *)
Definition CheckCollision (this other : Object) : R :=
  let dx := vx (position other) - vx (position this) in
  let dy := vy (position other) - vy (position this) in
  let dz := vz (position other) - vz (position this) in
  let distance := pow (dx * dx + dy * dy + dz * dz) (1 / 2) in
  if Rgt_dec (radius other + radius this) distance then - (2 / 10) else 1.

(** ** The per-frame body of [main] *)

(** State of the process between frames: the global [objs], the global
    [simulationSpeed] and the static counter of [UpdateTrail]. *)
Record World : Type := mkWorld {
  objs : list Object;
  simulationSpeed : R;
  frameCount : Z
}.

(** [sqrt(dx * dx + dy * dy + dz * dz)] of the pair loop. *)
Definition pair_distance (obj obj2 : Object) : R :=
  let dx := vx (position obj2) - vx (position obj) in
  let dy := vy (position obj2) - vy (position obj) in
  let dz := vz (position obj2) - vz (position obj) in
  sqrt (dx * dx + dy * dy + dz * dz).

(** The vector [acc] the pair loop computes for [obj] from [obj2] inside
    the [distance > 0] branch. *)
Definition pair_acc (obj obj2 : Object) : vec3 :=
  let dx := vx (position obj2) - vx (position obj) in
  let dy := vy (position obj2) - vy (position obj) in
  let dz := vz (position obj2) - vz (position obj) in
  let distance := sqrt (dx * dx + dy * dy + dz * dz) in
  let direction := mkVec3 (dx / distance) (dy / distance) (dz / distance) in
  let distance := distance * 1000 in
  let Gforce := (G * mass obj * mass obj2) / (distance * distance) in
  let acc1 := Gforce / mass obj in
  mkVec3 (vx direction * acc1) (vy direction * acc1) (vz direction * acc1).

(** One iteration of the inner loop [for (auto& obj2 : objs)] for an
    [obj2] that is not [obj] itself. *)
Definition interact (pause : bool) (speed : R) (obj obj2 : Object) : Object :=
  if negb (Initalizing obj) && negb (Initalizing obj2) then
    if Rgt_dec (pair_distance obj obj2) 0 then
      let obj := if negb pause
                 then accelerate speed obj (pair_acc obj obj2)
                 else obj in
      set_velocity obj (vscale (CheckCollision obj obj2) (velocity obj))
    else obj
  else obj.

(** One iteration of the outer loop [for (auto& obj : objs)]: [others] is
    the content of [objs] at that moment without [obj], in vector order. *)
Definition step_obj (pause : bool) (speed : R) (frameCount : Z)
    (others : list Object) (obj : Object) : Z * Object :=
  let obj := fold_left (interact pause speed) others obj in
  let obj := if Initalizing obj
             then set_radius obj (radius_of (mass obj) (density obj))
             else obj in
  if negb pause then UpdatePos speed frameCount obj else (frameCount, obj).

(** The outer loop.  [done] holds the elements already visited, as the
    loop left them (the vector is updated in place); [todo] the ones still
    to visit. *)
Fixpoint physics_loop (pause : bool) (speed : R) (frameCount : Z)
    (done todo : list Object) : Z * list Object :=
  match todo with
  | [] => (frameCount, done)
  | obj :: rest =>
      let '(frameCount, obj) :=
        step_obj pause speed frameCount (done ++ rest) obj in
      physics_loop pause speed frameCount (done ++ [obj]) rest
  end.

(** Update of the last element of a vector ([objs.back()]); an empty
    vector is left alone. *)
Fixpoint map_back {A : Type} (f : A -> A) (l : list A) : list A :=
  match l with
  | [] => []
  | [a] => [f a]
  | a :: l => a :: map_back f l
  end.

(** The body of
    [if (glfwGetMouseButton(window, GLFW_MOUSE_BUTTON_RIGHT) == GLFW_PRESS)]:
    [mass *= 1.0 + 1.0 * deltaTime] and the radius assignment after it. *)
Definition grow (deltaTime : R) (o : Object) : Object :=
  let o := set_mass o (mass o * (1 + 1 * deltaTime)) in
  set_radius o (pow ((3 * mass o / density o) / (4 * PI_LIT)) (1 / 3) / 100000).

(** The growth block of a frame. *)
Definition grow_back (rightButton : bool) (deltaTime : R)
    (l : list Object) : list Object :=
  map_back (fun o => if Initalizing o && rightButton
                     then grow deltaTime o else o) l.

(** One pass of the [while] loop of [main]: [pause] is what the K key
    sets at the top of the pass. *)
Definition frame (pause : bool) (deltaTime : R) (rightButton : bool)
    (w : World) : World :=
  let grown := grow_back rightButton deltaTime (objs w) in
  let '(fc, l) :=
    physics_loop pause (simulationSpeed w) (frameCount w) [] grown in
  mkWorld l (simulationSpeed w) fc.

(** ** GLFW callbacks *)

Inductive Key : Type :=
  KEY_0 | KEY_1 | KEY_2 | KEY_3 | KEY_4
| KEY_UP | KEY_DOWN | KEY_LEFT | KEY_RIGHT | KEY_OTHER.

Inductive Action : Type := PRESS | REPEAT | RELEASE.

Inductive Button : Type := BUTTON_LEFT | BUTTON_RIGHT | BUTTON_OTHER.

Definition is_press (a : Action) : bool :=
  match a with PRESS => true | _ => false end.
Definition press_or_repeat (a : Action) : bool :=
  match a with PRESS | REPEAT => true | RELEASE => false end.

Definition move (d : vec3) (o : Object) : Object :=
  set_position o (vadd (position o) d).

(** [keyCallback]: number keys set the speed, arrows move the body being
    created. *)
Definition keyCallback (key : Key) (action : Action) (shiftPressed : bool)
    (w : World) : World :=
  let speed :=
    if is_press action then
      match key with
      | KEY_0 => 1
      | KEY_1 => 5 / 10
      | KEY_2 => 2
      | KEY_3 => 5
      | KEY_4 => 10
      | _ => simulationSpeed w
      end
    else simulationSpeed w in
  let arrows (o : Object) : Object :=
    if Initalizing o && press_or_repeat action then
      match key with
      | KEY_UP =>
          let o := if negb shiftPressed
                   then move (mkVec3 0 (5 / 10) 0) o else o in
          move (mkVec3 0 0 (5 / 10)) o
      | KEY_DOWN =>
          let o := if negb shiftPressed
                   then move (mkVec3 0 (- (5 / 10)) 0) o else o in
          move (mkVec3 0 0 (- (5 / 10))) o
      | KEY_RIGHT => move (mkVec3 (5 / 10) 0 0) o
      | KEY_LEFT => move (mkVec3 (- (5 / 10)) 0 0) o
      | _ => o
      end
    else o in
  mkWorld (map_back arrows (objs w)) speed (frameCount w).

(** [float initMass = 5.0f * pow(10, 20) / 5]. *)
Definition initMass : R := 5 * 10 ^ 20 / 5.

(** [mouseButtonCallback]: a left press appends a body in creation, a
    left release launches the last body. *)
Definition mouseButtonCallback (button : Button) (action : Action)
    (w : World) : World :=
  match button, action with
  | BUTTON_LEFT, PRESS =>
      let o := new_Object (mkVec3 0 0 0) (mkVec3 0 0 0) initMass 3344 in
      mkWorld (objs w ++ [set_Initalizing o true])
              (simulationSpeed w) (frameCount w)
  | BUTTON_LEFT, RELEASE =>
      mkWorld (map_back (fun o => set_Launched (set_Initalizing o false) true)
                        (objs w))
              (simulationSpeed w) (frameCount w)
  | _, _ => w
  end.

(** What can happen to the world: a frame, or a callback between frames. *)
Inductive Event : Type :=
| EFrame (pause : bool) (deltaTime : R) (rightButton : bool)
| EKey (key : Key) (action : Action) (shiftPressed : bool)
| EMouse (button : Button) (action : Action).

Definition handle (w : World) (e : Event) : World :=
  match e with
  | EFrame p dt rb => frame p dt rb w
  | EKey k a s => keyCallback k a s w
  | EMouse b a => mouseButtonCallback b a w
  end.

Definition run (w : World) (es : list Event) : World :=
  fold_left handle es w.

(** The scene [main] builds before the loop: the Moon, with its trail
    enabled, and the Earth. *)
Definition moon : Object :=
  set_hasTrail
    (new_Object (mkVec3 3844 0 0) (mkVec3 0 0 228)
                (734767309 / 10 ^ 8 * 10 ^ 22) 3344)
    true.
Definition earth : Object :=
  new_Object (mkVec3 0 0 0) (mkVec3 0 0 0) (597219 / 10 ^ 5 * 10 ^ 24) 5515.
Definition initial_World : World := mkWorld [moon; earth] 1 0.

(** ** CreateGridVertices *)

(** A [float] that may be NaN. *)
Definition Fl : Type := option R.

Definition fadd (a b : Fl) : Fl :=
  match a, b with
  | Some x, Some y => Some (x + y)
  | _, _ => None
  end.

(** [sqrt] of <cmath>: NaN on a negative argument. *)
Definition fsqrt (x : R) : Fl :=
  if Rlt_dec x 0 then None else Some (sqrt x).

(** The integers [0 .. n-1] of a [for (int k = 0; k < n; ++k)]. *)
Definition zrange (n : Z) : list Z :=
  map Z.of_nat (seq 0 (Z.to_nat n)).

(** The two blocks of line segments, before the displacement pass: the
    flat array [x, y, z, x, y, z, ...]. *)
Definition grid_lines (size : R) (divisions : Z) : list R :=
  let step := size / IZR divisions in
  let halfSize := size / 2 in
  let xaxis :=
    flat_map (fun yStep =>
      let y := - halfSize * (3 / 10) + IZR yStep * step in
      flat_map (fun zStep =>
        let z := - halfSize + IZR zStep * step in
        flat_map (fun xStep =>
          let xStart := - halfSize + IZR xStep * step in
          let xEnd := xStart + step in
          [xStart; y; z; xEnd; y; z])
        (zrange divisions))
      (zrange (divisions + 1)))
    [3%Z] in
  let zaxis :=
    flat_map (fun xStep =>
      let x := - halfSize + IZR xStep * step in
      flat_map (fun yStep =>
        let y := - halfSize * (3 / 10) + IZR yStep * step in
        flat_map (fun zStep =>
          let zStart := - halfSize + IZR zStep * step in
          let zEnd := zStart + step in
          [x; y; zStart; x; y; zEnd])
        (zrange divisions))
      [3%Z])
    (zrange (divisions + 1)) in
  xaxis ++ zaxis.

(** The value [z] one body adds to [totalDisplacement] for one vertex. *)
Definition well (vertexPos : vec3) (obj : Object) : Fl :=
  let toObject := vsub (position obj) vertexPos in
  let distance := vnorm toObject in
  let distance_m := distance * 1000 in
  let rs := (2 * G * mass obj) / (c * c) in
  match fsqrt (rs * (distance_m - rs)) with
  | Some s => Some (2 * s * 100)
  | None => None
  end.

(** [totalDisplacement] after the loop over the bodies.  The source adds
    the scalar [z] to a [vec3], so its three components hold the same
    sum; one of them is kept. *)
Definition totalDisplacement (vertexPos : vec3) (objs : list Object) : Fl :=
  fold_left (fun t obj => fadd t (well vertexPos obj)) objs (Some 0).

(** What is stored in [vertices[i+1]]:
    [(vertexPos + totalDisplacement)[1] / 15.0f - 3000.0f]. *)
Definition displaced_y (vertexPos : vec3) (objs : list Object) : Fl :=
  match fadd (Some (vy vertexPos)) (totalDisplacement vertexPos objs) with
  | Some y => Some (y / 15 - 3000)
  | None => None
  end.

(** The displacement pass [for (i = 0; i < vertices.size(); i += 3)].  The
    array the source builds has a multiple of three entries; a shorter
    tail is returned as it is. *)
Fixpoint displace (objs : list Object) (vertices : list R) : list Fl :=
  match vertices with
  | x :: y :: z :: rest =>
      Some x :: displaced_y (mkVec3 x y z) objs :: Some z
        :: displace objs rest
  | rest => map Some rest
  end.

Definition CreateGridVertices (size : R) (divisions : Z)
    (objs : list Object) : list Fl :=
  displace objs (grid_lines size divisions).

(** ** Definitions used to state the properties *)

(** Distance in metres of a sample point from a body and the body's
    Schwarzschild radius, as [well] computes them. *)
Definition distance_m (vertexPos : vec3) (obj : Object) : R :=
  vnorm (vsub (position obj) vertexPos) * 1000.
Definition schwarzschild (obj : Object) : R :=
  (2 * G * mass obj) / (c * c).

(** The stored radius agrees with the mass-radius formula. *)
Definition radius_ok (o : Object) : Prop :=
  radius o = radius_of (mass o) (density o).

(** The trail holds at most K = 30 samples. *)
Definition trail_bounded (o : Object) : Prop :=
  (length (trailSpheres o) <= 30)%nat.

(** A projection of [Object] that the physics of a frame cannot change:
    it ignores velocity, radius, position and trail. *)
Definition stable {A : Type} (f : Object -> A) : Prop :=
  (forall o v, f (set_velocity o v) = f o) /\
  (forall o r, f (set_radius o r) = f o) /\
  (forall o p, f (set_position o p) = f o) /\
  (forall o t, f (set_trailSpheres o t) = f o).

(** What the growth block sees of a body: its creation flag and mass. *)
Definition growth_view (o : Object) : bool * R := (Initalizing o, mass o).

(** The compute-then-apply reading of a tick, stated from the ordering
    guarantee of the specification: every body is stepped against the
    bodies as they were when the tick began ([before] and [rest] are
    never updated), and the stepped bodies are collected in [out]. *)
Fixpoint snapshot_loop (pause : bool) (speed : R) (frameCount : Z)
    (before out todo : list Object) : Z * list Object :=
  match todo with
  | [] => (frameCount, out)
  | obj :: rest =>
      let '(frameCount, obj') :=
        step_obj pause speed frameCount (before ++ rest) obj in
      snapshot_loop pause speed frameCount (before ++ [obj]) (out ++ [obj'])
                    rest
  end.

(** A frame whose physics loop is the compute-then-apply reference. *)
Definition snapshot_frame (pause : bool) (deltaTime : R) (rightButton : bool)
    (w : World) : World :=
  let grown := grow_back rightButton deltaTime (objs w) in
  let '(fc, l) :=
    snapshot_loop pause (simulationSpeed w) (frameCount w) [] [] grown in
  mkWorld l (simulationSpeed w) fc.

(** A body of density 3 whose mass makes its radius exactly one unit. *)
Definition ball (p v : vec3) : Object :=
  new_Object p v (4 * PI_LIT * 10 ^ 15) 3.

(** A scene of five bodies, the trail enabled on every one of them. *)
Definition five_trails : World :=
  mkWorld
    [moon;
     set_hasTrail earth true;
     set_hasTrail (ball (mkVec3 0 2000 0) (mkVec3 0 0 0)) true;
     set_hasTrail (ball (mkVec3 0 0 2000) (mkVec3 0 0 0)) true;
     set_hasTrail (ball (mkVec3 0 (- 2000) 0) (mkVec3 0 0 0)) true]
    1 0.

(** Two accelerations obey Newton's third law for masses [mA], [mB]: they
    point in exactly opposite directions and [mA * |aA| = mB * |aB|]. *)
Definition opposite (a b : vec3) : Prop :=
  exists k : R, 0 < k /\ a = vscale (- k) b.
Definition third_law (mA : R) (aA : vec3) (mB : R) (aB : vec3) : Prop :=
  opposite aA aB /\ mA * vnorm aA = mB * vnorm aB.

(** The body is moved to each position of [ps] in turn and [UpdateTrail]
    runs after each move, as [UpdatePos] does once per tick. *)
Fixpoint feed (frameCount : Z) (o : Object) (ps : list vec3) : Z * Object :=
  match ps with
  | [] => (frameCount, o)
  | p :: ps =>
      let '(frameCount, o) := UpdateTrail frameCount (set_position o p) in
      feed frameCount o ps
  end.

(** The positions of [ps] at which the counter, starting from
    [frameCount], reaches a multiple of five. *)
Fixpoint sampled (frameCount : Z) (ps : list vec3) : list vec3 :=
  match ps with
  | [] => []
  | p :: ps =>
      let frameCount := int_wrap (frameCount + 1) in
      if (Z.rem frameCount 5 =? 0)%Z
      then p :: sampled frameCount ps
      else sampled frameCount ps
  end.

(** What the trail logic sees of a body: its flag and its trail length. *)
Definition trail_view (o : Object) : bool * nat :=
  (hasTrail o, length (trailSpheres o)).

(** [UpdateTrail] on views. *)
Definition view_step (frameCount : Z) (v : bool * nat) : Z * (bool * nat) :=
  if negb (fst v) then (frameCount, v)
  else
    let frameCount := int_wrap (frameCount + 1) in
    if (Z.rem frameCount 5 =? 0)%Z then
      (frameCount,
       (fst v, if (Z.of_nat (S (snd v)) >? maxTrailLength)%Z
               then snd v else S (snd v)))
    else (frameCount, v).



(** ** Sphere meshes and the trail renderer *)

(** [sphericalToCartesian]. *)
Definition sphericalToCartesian (r theta phi : R) : vec3 :=
  mkVec3 (r * sin theta * cos phi) (r * cos theta) (r * sin theta * sin phi).

(** The vertices the two nested loops of [Object::Draw] emit, in order:
    [for (float i = 0; i <= stacks; ++i)] and
    [for (float j = 0; j < sectors; ++j)], two triangles per step.
    [glm::pi<float>()] is read as pi. *)
Definition mesh_points (stacks sectors : nat) (r : R) : list vec3 :=
  flat_map (fun i =>
    let theta1 := INR i / INR stacks * PI in
    let theta2 := (INR i + 1) / INR stacks * PI in
    flat_map (fun j =>
      let phi1 := INR j / INR sectors * 2 * PI in
      let phi2 := (INR j + 1) / INR sectors * 2 * PI in
      let v1 := sphericalToCartesian r theta1 phi1 in
      let v2 := sphericalToCartesian r theta1 phi2 in
      let v3 := sphericalToCartesian r theta2 phi1 in
      let v4 := sphericalToCartesian r theta2 phi2 in
      [v1; v2; v3; v2; v4; v3])
    (seq 0 sectors))
  (seq 0 (S stacks)).

(** The flat array [x, y, z, x, y, z, ...] of a list of vertices. *)
Definition flatten (l : list vec3) : list R :=
  flat_map (fun v => [vx v; vy v; vz v]) l.

(** [Object::Draw]: [stacks = 10], [sectors = 10]. *)
Definition Draw (o : Object) : list R :=
  flatten (mesh_points 10 10 (radius o)).

(** The vertex array [UpdateTrail] builds for a new trail sphere:
    [stacks = 8], [sectors = 8], radius [radius * 0.3f]. *)
Definition trail_sphere_vertices (o : Object) : list R :=
  flatten (mesh_points 8 8 (radius o * (3 / 10))).

(** [Object::DrawTrail], as the list of draws it issues: the alpha passed
    to [glUniform4f] and the translation of the model matrix. *)
Definition DrawTrail (o : Object) : list (R * vec3) :=
  if negb (hasTrail o) || (length (trailSpheres o) =? 0)%nat then []
  else
    map (fun ip =>
           (INR (fst ip + 1) / INR (length (trailSpheres o)), snd ip))
        (combine (seq 0 (length (trailSpheres o))) (trailSpheres o)).

(** ** The camera *)

(** The camera globals: [cameraPos], [cameraFront], [lastX], [lastY],
    [yaw], [pitch]. *)
Record Camera : Type := mkCamera {
  cameraPos : vec3;
  cameraFront : vec3;
  lastX : R;
  lastY : R;
  yaw : R;
  pitch : R
}.

(** [glm::vec3 cameraUp = (0, 1, 0)], never assigned. *)
Definition cameraUp : vec3 := mkVec3 0 1 0.

(** [glm::radians], [glm::cross], [glm::normalize]. *)
Definition radians (degrees : R) : R := degrees * (PI / 180).
Definition vcross (a b : vec3) : vec3 :=
  mkVec3 (vy a * vz b - vz a * vy b)
         (vz a * vx b - vx a * vz b)
         (vx a * vy b - vy a * vx b).
Definition normalize (v : vec3) : vec3 := vscale (/ vnorm v) v.

(** [mouse_callback]. *)
Definition mouse_callback (xpos ypos : R) (cam : Camera) : Camera :=
  let xoffset := xpos - lastX cam in
  let yoffset := lastY cam - ypos in
  let sensitivity := 1 / 10 in
  let xoffset := xoffset * sensitivity in
  let yoffset := yoffset * sensitivity in
  let yaw := yaw cam + xoffset in
  let pitch := pitch cam + yoffset in
  let pitch := if Rgt_dec pitch 89 then 89 else pitch in
  let pitch := if Rlt_dec pitch (- 89) then - 89 else pitch in
  let front :=
    mkVec3 (cos (radians yaw) * cos (radians pitch))
           (sin (radians pitch))
           (sin (radians yaw) * cos (radians pitch)) in
  mkCamera (cameraPos cam) (normalize front) xpos ypos yaw pitch.

(** [scroll_callback], with the global [deltaTime] as an argument. *)
Definition scroll_callback (yoffset deltaTime : R) (cam : Camera) : Camera :=
  let cameraSpeed := 50000 * deltaTime in
  let pos :=
    if Rgt_dec yoffset 0
    then vadd (cameraPos cam) (vscale cameraSpeed (cameraFront cam))
    else if Rlt_dec yoffset 0
    then vsub (cameraPos cam) (vscale cameraSpeed (cameraFront cam))
    else cameraPos cam in
  mkCamera pos (cameraFront cam) (lastX cam) (lastY cam) (yaw cam) (pitch cam).

(** The keys [main] polls for the camera with [glfwGetKey]. *)
Record CamKeys : Type := mkCamKeys {
  key_X : bool; key_W : bool; key_S : bool; key_A : bool; key_D : bool;
  key_SPACE : bool; key_LEFT_SHIFT : bool
}.

(** The camera movement block of one pass of the loop of [main]. *)
Definition move_camera (k : CamKeys) (deltaTime : R) (cam : Camera) : Camera :=
  let speedMultiplier := if key_X k then 5 else 1 in
  let cameraSpeed := 1000 * deltaTime * speedMultiplier in
  let front := cameraFront cam in
  let side := normalize (vcross front cameraUp) in
  let pos := cameraPos cam in
  let pos := if key_W k then vadd pos (vscale cameraSpeed front) else pos in
  let pos := if key_S k then vsub pos (vscale cameraSpeed front) else pos in
  let pos := if key_A k then vsub pos (vscale cameraSpeed side) else pos in
  let pos := if key_D k then vadd pos (vscale cameraSpeed side) else pos in
  let pos := if key_SPACE k
             then vadd pos (vscale cameraSpeed cameraUp) else pos in
  let pos := if key_LEFT_SHIFT k
             then vsub pos (vscale cameraSpeed cameraUp) else pos in
  mkCamera pos front (lastX cam) (lastY cam) (yaw cam) (pitch cam).

Inductive CamEvent : Type :=
| CMouse (xpos ypos : R)
| CScroll (yoffset deltaTime : R)
| CKeys (k : CamKeys) (deltaTime : R).

Definition cam_handle (cam : Camera) (e : CamEvent) : Camera :=
  match e with
  | CMouse x y => mouse_callback x y cam
  | CScroll yo dt => scroll_callback yo dt cam
  | CKeys k dt => move_camera k dt cam
  end.

Definition cam_run (cam : Camera) (es : list CamEvent) : Camera :=
  fold_left cam_handle es cam.

(** The camera when the loop of [main] starts. *)
Definition initial_Camera : Camera :=
  mkCamera (mkVec3 0 1000 5000) (mkVec3 0 0 (- 1)) 400 300 (- 90) 0.

(** ** Further definitions used to state properties *)

(** The view direction agrees with the stored angles, and the pitch is
    within the clamp. *)
Definition camera_ok (cam : Camera) : Prop :=
  cameraFront cam =
    mkVec3 (cos (radians (yaw cam)) * cos (radians (pitch cam)))
           (sin (radians (pitch cam)))
           (sin (radians (yaw cam)) * cos (radians (pitch cam))) /\
  - 89 <= pitch cam <= 89.

(** The bodies of a list that take part in gravity and collisions. *)
Definition active (l : list Object) : list Object :=
  filter (fun o => negb (Initalizing o)) l.

(** Two bodies do not overlap: [CheckCollision] answers 1.0. *)
Definition apart (a b : Object) : Prop :=
  radius a + radius b <= pair_distance a b.

(** Every y entry of a flat vertex array is [y]. *)
Inductive plane (y : R) : list R -> Prop :=
| plane_nil : plane y []
| plane_cons : forall x z rest, plane y rest -> plane y (x :: y :: z :: rest).

(** Number of left-button presses among the events. *)
Definition presses (es : list Event) : nat :=
  length (filter (fun e => match e with
                           | EMouse BUTTON_LEFT PRESS => true
                           | _ => false
                           end) es).

(** Number of trail-enabled bodies. *)
Definition trails (l : list Object) : nat :=
  length (filter hasTrail l).

(** The values [int] can hold. *)
Definition int_range (z : Z) : Prop := (- 2 ^ 31 <= z < 2 ^ 31)%Z.

(** What can become of a body between two moments of a run: density and
    trail flag are kept, a launched body stays launched, and an Active
    body stays Active with the mass it has. *)
Definition evolves (o o' : Object) : Prop :=
  density o' = density o /\
  hasTrail o' = hasTrail o /\
  (Launched o = true -> Launched o' = true) /\
  (Initalizing o = false -> Initalizing o' = false /\ mass o' = mass o).

(** The members of a body the physics loop cannot write. *)
Definition identity_view (o : Object) : bool * bool * R * R * bool :=
  (Initalizing o, Launched o, mass o, density o, hasTrail o).

(** The arrow key that undoes an arrow key. *)
Definition opposite_key (k : Key) : Key :=
  match k with
  | KEY_UP => KEY_DOWN
  | KEY_DOWN => KEY_UP
  | KEY_LEFT => KEY_RIGHT
  | KEY_RIGHT => KEY_LEFT
  | k => k
  end.


(** * Properties *)

(** ** Lists *)

Lemma lastn_all {A : Type} (n : nat) (l : list A) :
  (length l <= n)%nat -> lastn n l = l.
Proof.
  intros H. unfold lastn.
  replace (length l - n)%nat with 0%nat by lia. reflexivity.
Qed.

Lemma lastn_length {A : Type} (n : nat) (l : list A) :
  (length (lastn n l) <= n)%nat.
Proof. unfold lastn. rewrite length_skipn. lia. Qed.

Lemma lastn_snoc {A : Type} (n : nat) (l : list A) (a : A) :
  lastn (S n) (l ++ [a]) = lastn n l ++ [a].
Proof.
  unfold lastn. rewrite length_app. simpl.
  replace (length l + 1 - S n)%nat with (length l - n)%nat by lia.
  rewrite skipn_app.
  replace (length l - n - length l)%nat with 0%nat by lia.
  reflexivity.
Qed.

Lemma lastn_lastn {A : Type} (n m : nat) (l : list A) :
  (n <= m)%nat -> lastn n (lastn m l) = lastn n l.
Proof.
  intros H. unfold lastn. rewrite length_skipn, skipn_skipn.
  f_equal. lia.
Qed.

Lemma lastn_app_lastn {A : Type} (n : nat) (l r : list A) :
  lastn n (lastn n l ++ r) = lastn n (l ++ r).
Proof.
  revert l. induction r as [|a r IH] using rev_ind; intros l.
  - rewrite !app_nil_r. apply lastn_lastn. lia.
  - destruct n as [|n].
    + unfold lastn. rewrite !Nat.sub_0_r, !skipn_all. reflexivity.
    + rewrite !app_assoc, !lastn_snoc.
      f_equal.
      rewrite <- (lastn_lastn n (S n) (lastn (S n) l ++ r)) by lia.
      rewrite IH. apply lastn_lastn. lia.
Qed.

Lemma tl_lastn {A : Type} (n : nat) (l : list A) :
  length l = S n -> tl l = lastn n l.
Proof.
  intros H. unfold lastn. rewrite H.
  replace (S n - n)%nat with 1%nat by lia.
  destruct l; reflexivity.
Qed.

Lemma map_back_Forall {A : Type} (P : A -> Prop) (f : A -> A) (l : list A) :
  (forall a, P a -> P (f a)) -> Forall P l -> Forall P (map_back f l).
Proof.
  intros Hf. induction 1 as [|a l Ha Hl IH]; simpl.
  - constructor.
  - destruct l as [|b l].
    + constructor; auto.
    + constructor; auto.
Qed.

(** ** The trail *)

Lemma UpdateTrail_trail (fc : Z) (o : Object) :
  hasTrail o = true ->
  (length (trailSpheres o) <= 30)%nat ->
  trailSpheres (snd (UpdateTrail fc o)) =
    lastn 30 (trailSpheres o ++
              if (Z.rem (int_wrap (fc + 1)) 5 =? 0)%Z then [position o] else []).
Proof.
  intros Ht Hlen. unfold UpdateTrail. rewrite Ht. simpl.
  destruct (Z.rem (int_wrap (fc + 1)) 5 =? 0)%Z; simpl.
  - unfold maxTrailLength.
    destruct (Z.of_nat (length (trailSpheres o ++ [position o])) >? 30)%Z eqn:E;
      rewrite Z.gtb_ltb in E.
    + apply Z.ltb_lt in E.
      apply tl_lastn. rewrite length_app in *. simpl in *. lia.
    + apply Z.ltb_ge in E.
      symmetry. apply lastn_all. lia.
  - rewrite app_nil_r. symmetry. apply lastn_all. exact Hlen.
Qed.

Lemma UpdateTrail_fc (fc : Z) (o : Object) :
  hasTrail o = true -> fst (UpdateTrail fc o) = int_wrap (fc + 1).
Proof.
  intros Ht. unfold UpdateTrail. rewrite Ht. simpl.
  destruct (Z.rem (int_wrap (fc + 1)) 5 =? 0)%Z; reflexivity.
Qed.

Lemma UpdateTrail_hasTrail (fc : Z) (o : Object) :
  hasTrail (snd (UpdateTrail fc o)) = hasTrail o.
Proof.
  unfold UpdateTrail.
  destruct (hasTrail o) eqn:Ht; simpl; [|exact Ht].
  destruct (Z.rem (int_wrap (fc + 1)) 5 =? 0)%Z; simpl; exact Ht.
Qed.

Lemma UpdateTrail_bound (fc : Z) (o : Object) :
  (length (trailSpheres o) <= 30)%nat ->
  (length (trailSpheres (snd (UpdateTrail fc o))) <= 30)%nat.
Proof.
  intros Hlen. destruct (hasTrail o) eqn:Ht.
  - rewrite UpdateTrail_trail by assumption. apply lastn_length.
  - unfold UpdateTrail. rewrite Ht. exact Hlen.
Qed.

Lemma feed_trail (ps : list vec3) : forall (fc : Z) (o : Object),
  hasTrail o = true ->
  (length (trailSpheres o) <= 30)%nat ->
  trailSpheres (snd (feed fc o ps)) =
    lastn 30 (trailSpheres o ++ sampled fc ps).
Proof.
  induction ps as [|p ps IH]; intros fc o Ht Hlen; simpl.
  - rewrite app_nil_r. symmetry. apply lastn_all. exact Hlen.
  - pose proof (UpdateTrail_trail fc (set_position o p) Ht Hlen) as Hu.
    pose proof (UpdateTrail_fc fc (set_position o p) Ht) as Hfc.
    pose proof (UpdateTrail_hasTrail fc (set_position o p)) as Hh.
    pose proof (UpdateTrail_bound fc (set_position o p) Hlen) as Hb.
    destruct (UpdateTrail fc (set_position o p)) as [fc' o'].
    simpl in Hu, Hfc, Hh, Hb. subst fc'.
    rewrite IH; [|rewrite Hh; exact Ht|exact Hb].
    rewrite Hu.
    destruct (Z.rem (int_wrap (fc + 1)) 5 =? 0)%Z.
    + rewrite lastn_app_lastn, <- app_assoc. reflexivity.
    + rewrite app_nil_r, lastn_app_lastn. reflexivity.
Qed.

Lemma feed_bound (ps : list vec3) : forall (fc : Z) (o : Object),
  (length (trailSpheres o) <= 30)%nat ->
  (length (trailSpheres (snd (feed fc o ps))) <= 30)%nat.
Proof.
  induction ps as [|p ps IH]; intros fc o Hlen; simpl.
  - exact Hlen.
  - pose proof (UpdateTrail_bound fc (set_position o p) Hlen) as Hb.
    destruct (UpdateTrail fc (set_position o p)) as [fc' o'].
    apply IH. exact Hb.
Qed.

(** ** What the pair loop leaves alone *)

Lemma interact_velocity_only (p : bool) (s : R) (o o2 : Object) :
  exists v, interact p s o o2 = set_velocity o v.
Proof.
  unfold interact.
  destruct (negb (Initalizing o) && negb (Initalizing o2));
    [destruct (Rgt_dec (pair_distance o o2) 0)|];
    try (exists (velocity o); destruct o; reflexivity).
  destruct p; simpl; eexists; reflexivity.
Qed.

Lemma pair_loop_velocity_only (p : bool) (s : R) (others : list Object) :
  forall o, exists v, fold_left (interact p s) others o = set_velocity o v.
Proof.
  induction others as [|o2 others IH]; intros o; simpl.
  - exists (velocity o). destruct o; reflexivity.
  - destruct (interact_velocity_only p s o o2) as [v Hv]. rewrite Hv.
    destruct (IH (set_velocity o v)) as [v' Hv']. rewrite Hv'.
    exists v'. reflexivity.
Qed.

Lemma physics_loop_Forall (P : Object -> Prop) :
  (forall p s fc others o, P o -> P (snd (step_obj p s fc others o))) ->
  forall todo p s fc done,
    Forall P done -> Forall P todo ->
    Forall P (snd (physics_loop p s fc done todo)).
Proof.
  intros Hstep todo.
  induction todo as [|o rest IH]; intros p s fc done Hd Ht; simpl.
  - exact Hd.
  - inversion Ht as [|? ? Ho Hrest]; subst.
    pose proof (Hstep p s fc (done ++ rest) o Ho) as Hs.
    destruct (step_obj p s fc (done ++ rest) o) as [fc' o'].
    apply IH; [|exact Hrest].
    apply Forall_app. split; [exact Hd|]. constructor; [exact Hs|constructor].
Qed.

Lemma frame_Forall (P : Object -> Prop) :
  (forall p s fc others o, P o -> P (snd (step_obj p s fc others o))) ->
  (forall dt o, P o -> P (grow dt o)) ->
  forall p dt rb w, Forall P (objs w) -> Forall P (objs (frame p dt rb w)).
Proof.
  intros Hstep Hgrow p dt rb w Hw. unfold frame.
  pose proof (physics_loop_Forall P Hstep
                (grow_back rb dt (objs w)) p (simulationSpeed w)
                (frameCount w) []) as H.
  destruct (physics_loop p (simulationSpeed w) (frameCount w) []
              (grow_back rb dt (objs w))) as [fc l].
  simpl in *. apply H; [constructor|].
  apply map_back_Forall; [|exact Hw].
  intros o Ho. destruct (Initalizing o && rb); auto.
Qed.

Lemma run_Forall (P : Object -> Prop) :
  (forall e w, Forall P (objs w) -> Forall P (objs (handle w e))) ->
  forall es w, Forall P (objs w) -> Forall P (objs (run w es)).
Proof.
  intros Hh es. unfold run.
  induction es as [|e es IH]; intros w Hw; simpl; [exact Hw|].
  apply IH, Hh, Hw.
Qed.

(** ** Trail length over whole runs *)

Lemma UpdatePos_trail_bounded (s : R) (fc : Z) (o : Object) :
  trail_bounded o -> trail_bounded (snd (UpdatePos s fc o)).
Proof.
  unfold trail_bounded, UpdatePos. intros H. simpl.
  destruct (hasTrail o); [|exact H].
  apply UpdateTrail_bound. exact H.
Qed.

Lemma step_obj_trail_bounded (p : bool) (s : R) (fc : Z)
    (others : list Object) (o : Object) :
  trail_bounded o -> trail_bounded (snd (step_obj p s fc others o)).
Proof.
  intros H. unfold step_obj.
  destruct (pair_loop_velocity_only p s others o) as [v Hv]. rewrite Hv.
  assert (H1 : trail_bounded
                 (if Initalizing (set_velocity o v)
                  then set_radius (set_velocity o v)
                         (radius_of (mass (set_velocity o v))
                                    (density (set_velocity o v)))
                  else set_velocity o v)).
  { destruct (Initalizing (set_velocity o v)); exact H. }
  destruct (negb p); [apply UpdatePos_trail_bounded|]; exact H1.
Qed.

Lemma handle_trail_bounded (e : Event) (w : World) :
  Forall trail_bounded (objs w) -> Forall trail_bounded (objs (handle w e)).
Proof.
  intros Hw. destruct e as [p dt rb|k a sh|b a]; simpl.
  - apply frame_Forall; auto using step_obj_trail_bounded.
  - unfold keyCallback. simpl. apply map_back_Forall; [|exact Hw].
    intros o Ho.
    destruct (Initalizing o && press_or_repeat a); [|exact Ho].
    destruct k; try exact Ho; destruct (negb sh); exact Ho.
  - unfold mouseButtonCallback.
    destruct b; try exact Hw; destruct a; try exact Hw; simpl.
    + apply Forall_app. split; [exact Hw|].
      constructor; [|constructor]. unfold trail_bounded. simpl. lia.
    + apply map_back_Forall; [|exact Hw]. intros o Ho. exact Ho.
Qed.

(** C7.  The trail never holds more than K = 30 samples, whatever
    sequence of frames and callbacks the world goes through, and the
    buffer is a strict FIFO: after any number of position updates of a
    trail-enabled body the trail is exactly the last 30 of the samples
    appended so far (those already retained followed by the newly sampled
    positions), oldest first. *)
Theorem C7_trail_bounded_fifo :
  (forall (w : World) (es : list Event),
      Forall trail_bounded (objs w) ->
      Forall trail_bounded (objs (run w es))) /\
  (forall (fc : Z) (o : Object) (ps : list vec3),
      hasTrail o = true ->
      trail_bounded o ->
      trailSpheres (snd (feed fc o ps)) =
        lastn 30 (trailSpheres o ++ sampled fc ps) /\
      trail_bounded (snd (feed fc o ps))).
Proof.
  split.
  - intros w es. apply run_Forall. intros e w'. apply handle_trail_bounded.
  - intros fc o ps Ht Hb. split.
    + apply feed_trail; assumption.
    + apply feed_bound; assumption.
Qed.

Lemma C7_trail_bounded_fifo_witness :
  (trailSpheres
     (snd (feed 0 moon [mkVec3 1 0 0; mkVec3 2 0 0; mkVec3 3 0 0;
                        mkVec3 4 0 0; mkVec3 5 0 0; mkVec3 6 0 0])) =
   lastn 30 (trailSpheres moon ++
             sampled 0 [mkVec3 1 0 0; mkVec3 2 0 0; mkVec3 3 0 0;
                        mkVec3 4 0 0; mkVec3 5 0 0; mkVec3 6 0 0]) /\
   trail_bounded
     (snd (feed 0 moon [mkVec3 1 0 0; mkVec3 2 0 0; mkVec3 3 0 0;
                        mkVec3 4 0 0; mkVec3 5 0 0; mkVec3 6 0 0]))) /\
  Forall trail_bounded
    (objs (run initial_World [EFrame false (1 / 60) false])).
Proof.
  split.
  - apply (proj2 C7_trail_bounded_fifo).
    + reflexivity.
    + unfold trail_bounded. simpl. lia.
  - apply (proj1 C7_trail_bounded_fifo).
    repeat constructor; unfold trail_bounded; simpl; lia.
Defined.

(** ** The mass-radius invariant *)

Lemma UpdateTrail_radius_ok (fc : Z) (o : Object) :
  radius_ok o -> radius_ok (snd (UpdateTrail fc o)).
Proof.
  unfold UpdateTrail, radius_ok. intros H.
  destruct (negb (hasTrail o)); [exact H|].
  destruct (Z.rem (int_wrap (fc + 1)) 5 =? 0)%Z; exact H.
Qed.

Lemma UpdatePos_radius_ok (s : R) (fc : Z) (o : Object) :
  radius_ok (snd (UpdatePos s fc o)).
Proof.
  unfold UpdatePos. simpl.
  destruct (hasTrail o).
  - apply UpdateTrail_radius_ok. reflexivity.
  - reflexivity.
Qed.

Lemma grow_radius_ok (dt : R) (o : Object) : radius_ok (grow dt o).
Proof. reflexivity. Qed.

Lemma step_obj_radius_ok (p : bool) (s : R) (fc : Z)
    (others : list Object) (o : Object) :
  radius_ok o -> radius_ok (snd (step_obj p s fc others o)).
Proof.
  intros H. unfold step_obj.
  destruct (pair_loop_velocity_only p s others o) as [v Hv]. rewrite Hv.
  destruct (negb p); [apply UpdatePos_radius_ok|].
  simpl. destruct (Initalizing o); [reflexivity|exact H].
Qed.

Lemma handle_radius_ok (e : Event) (w : World) :
  Forall radius_ok (objs w) -> Forall radius_ok (objs (handle w e)).
Proof.
  intros Hw. destruct e as [p dt rb|k a sh|b a]; simpl.
  - apply frame_Forall; auto using step_obj_radius_ok, grow_radius_ok.
  - unfold keyCallback. simpl. apply map_back_Forall; [|exact Hw].
    intros o Ho.
    destruct (Initalizing o && press_or_repeat a); [|exact Ho].
    destruct k; try exact Ho; destruct (negb sh); exact Ho.
  - unfold mouseButtonCallback.
    destruct b; try exact Hw; destruct a; try exact Hw; simpl.
    + apply Forall_app. split; [exact Hw|].
      constructor; [reflexivity|constructor].
    + apply map_back_Forall; [|exact Hw]. intros o Ho. exact Ho.
Qed.

(** C6.  The stored radius is always the mass-radius formula
    [pow((3 * mass / density) / (4 pi), 1/3) / 100000] of the body's
    current mass and density (pi being the source's literal
    3.14159265359): it holds of a freshly constructed body, after a growth
    step of a body in creation, after [UpdatePos], and of every body of
    the world after any sequence of frames and callbacks that starts from
    the scene [main] builds. *)
Theorem C6_radius_invariant :
  (forall (p v : vec3) (m d : R), radius_ok (new_Object p v m d)) /\
  (forall (dt : R) (o : Object), radius_ok (grow dt o)) /\
  (forall (s : R) (fc : Z) (o : Object), radius_ok (snd (UpdatePos s fc o))) /\
  (forall es : list Event, Forall radius_ok (objs (run initial_World es))).
Proof.
  split; [|split; [|split]].
  - intros p v m d. reflexivity.
  - apply grow_radius_ok.
  - apply UpdatePos_radius_ok.
  - intros es. apply run_Forall.
    + intros e w. apply handle_radius_ok.
    + repeat constructor.
Qed.

(** ** The displacement pass *)

Lemma displace_xz_bounded (objs : list Object) (n : nat) :
  forall (vertices : list R) (i : nat),
    (length vertices <= n)%nat ->
    (i mod 3 <> 1)%nat ->
    nth_error (displace objs vertices) i =
      option_map Some (nth_error vertices i).
Proof.
  induction n as [n IH] using lt_wf_ind.
  intros vertices i Hlen Hi.
  destruct vertices as [|x [|y [|z rest]]].
  - destruct i; reflexivity.
  - destruct i as [|[|i]]; reflexivity.
  - destruct i as [|[|[|i]]]; reflexivity.
  - simpl displace.
    destruct i as [|[|[|i]]]; try reflexivity.
    + exfalso. apply Hi. reflexivity.
    + change (nth_error (displace objs rest) i =
              option_map Some (nth_error rest i)).
      simpl in Hlen.
      apply (IH (length rest)); [lia|lia|].
      intros H. apply Hi.
      replace (S (S (S i))) with (i + 1 * 3)%nat by lia.
      rewrite Nat.Div0.mod_add. exact H.
Qed.

(** C10.  The displacement pass writes only the y entry of each vertex:
    every entry of the returned array whose index is not of the form
    [3k + 1] (the x and z entries) is the finite value the undisplaced
    grid has at that index, whatever the bodies are. *)
Theorem C10_grid_xz_preserved (size : R) (divisions : Z)
    (objs : list Object) (i : nat) :
  (i mod 3 <> 1)%nat ->
  nth_error (CreateGridVertices size divisions objs) i =
    option_map Some (nth_error (grid_lines size divisions) i).
Proof.
  intros Hi. unfold CreateGridVertices.
  apply (displace_xz_bounded objs (length (grid_lines size divisions)));
    [lia|exact Hi].
Qed.

Lemma C10_grid_xz_preserved_witness :
  (3 mod 3 <> 1)%nat /\
  nth_error (CreateGridVertices 10000 50 [moon; earth]) 3 =
    option_map Some (nth_error (grid_lines 10000 50) 3).
Proof.
  split.
  - simpl. lia.
  - apply C10_grid_xz_preserved. simpl. lia.
Defined.

(** ** The curvature field *)

Lemma G_pos : 0 < G.
Proof. unfold G. apply Rdiv_lt_0_compat; [lra|apply pow_lt; lra]. Qed.

Lemma c_sqr_pos : 0 < c * c.
Proof. unfold c. nra. Qed.

Lemma schwarzschild_nonneg (o : Object) : 0 <= mass o -> 0 <= schwarzschild o.
Proof.
  intros Hm. unfold schwarzschild.
  apply Rmult_le_pos; [|left; apply Rinv_0_lt_compat, c_sqr_pos].
  pose proof G_pos. nra.
Qed.

Lemma schwarzschild_pos (o : Object) : 0 < mass o -> 0 < schwarzschild o.
Proof.
  intros Hm. unfold schwarzschild.
  apply Rdiv_lt_0_compat; [|apply c_sqr_pos].
  pose proof G_pos. nra.
Qed.

Lemma well_unfold (p : vec3) (o : Object) :
  well p o =
    match fsqrt (schwarzschild o * (distance_m p o - schwarzschild o)) with
    | Some s => Some (2 * s * 100)
    | None => None
    end.
Proof. reflexivity. Qed.

Lemma well_inside (p : vec3) (o : Object) :
  0 < mass o -> distance_m p o < schwarzschild o -> well p o = None.
Proof.
  intros Hm Hd. rewrite well_unfold. unfold fsqrt.
  pose proof (schwarzschild_pos o Hm) as Hrs.
  destruct (Rlt_dec (schwarzschild o * (distance_m p o - schwarzschild o)) 0)
    as [_|Hn]; [reflexivity|].
  exfalso. apply Hn. nra.
Qed.

Lemma well_outside (p : vec3) (o : Object) :
  0 <= mass o -> schwarzschild o <= distance_m p o ->
  well p o =
    Some (2 * sqrt (schwarzschild o * (distance_m p o - schwarzschild o)) * 100).
Proof.
  intros Hm Hd. rewrite well_unfold. unfold fsqrt.
  pose proof (schwarzschild_nonneg o Hm) as Hrs.
  destruct (Rlt_dec (schwarzschild o * (distance_m p o - schwarzschild o)) 0)
    as [Hn|_]; [|reflexivity].
  exfalso. nra.
Qed.

Lemma well_horizon (p : vec3) (o : Object) :
  distance_m p o = schwarzschild o -> well p o = Some 0.
Proof.
  intros Hd. rewrite well_unfold, Hd. unfold fsqrt.
  replace (schwarzschild o * (schwarzschild o - schwarzschild o)) with 0
    by ring.
  destruct (Rlt_dec 0 0) as [H|_]; [lra|].
  rewrite sqrt_0. f_equal. ring.
Qed.

Lemma totalDisplacement_nan (p : vec3) (l : list Object) :
  fold_left (fun t obj => fadd t (well p obj)) l None = None.
Proof. induction l as [|o l IH]; simpl; [reflexivity|exact IH]. Qed.

Lemma totalDisplacement_finite (p : vec3) (l : list Object) :
  Forall (fun o => 0 <= mass o /\ schwarzschild o <= distance_m p o) l ->
  forall t0 : R,
    exists t, fold_left (fun t obj => fadd t (well p obj)) l (Some t0) = Some t.
Proof.
  induction 1 as [|o l [Hm Hd] Hl IH]; intros t0; simpl.
  - exists t0. reflexivity.
  - rewrite (well_outside p o Hm Hd). simpl. apply IH.
Qed.

Lemma vnorm_zero : vnorm (mkVec3 0 0 0) = 0.
Proof.
  unfold vnorm. simpl.
  replace (0 * 0 + 0 * 0 + 0 * 0) with 0 by ring. apply sqrt_0.
Qed.

Lemma earth_mass_pos : 0 < mass earth.
Proof.
  change (mass earth) with (597219 / 10 ^ 5 * 10 ^ 24).
  apply Rmult_lt_0_compat; [|apply pow_lt; lra].
  apply Rdiv_lt_0_compat; [lra|apply pow_lt; lra].
Qed.

Lemma zrange_head (n : Z) :
  (0 < n)%Z -> exists t, zrange n = 0%Z :: t.
Proof.
  intros Hn. unfold zrange.
  destruct (Z.to_nat n) as [|k] eqn:E; [lia|].
  eexists. reflexivity.
Qed.

Lemma grid_lines_head (size : R) (divisions : Z) :
  (0 < divisions)%Z ->
  exists rest,
    grid_lines size divisions =
      (- (size / 2) + IZR 0 * (size / IZR divisions))
      :: (- (size / 2) * (3 / 10) + IZR 3 * (size / IZR divisions))
      :: (- (size / 2) + IZR 0 * (size / IZR divisions)) :: rest.
Proof.
  intros Hd. unfold grid_lines. cbv zeta.
  destruct (zrange_head divisions Hd) as [t1 H1].
  destruct (zrange_head (divisions + 1)) as [t2 H2]; [lia|].
  rewrite H1, H2. cbn [flat_map app]. eexists. reflexivity.
Qed.

Lemma well_at_centre (o : Object) (p : vec3) :
  0 < mass o -> vsub (position o) p = mkVec3 0 0 0 -> well p o = None.
Proof.
  intros Hm Hp. apply well_inside; [exact Hm|].
  unfold distance_m. rewrite Hp, vnorm_zero.
  pose proof (schwarzschild_pos o Hm). lra.
Qed.

(** C3, as stated, fails: a sample point at the Earth's centre lies inside
    its Schwarzschild radius, yet the contribution is not zero but the NaN
    of a square root of a negative number, and that NaN reaches the
    vertex.  The same happens in the grid [main] asks for when a body sits
    on the first grid vertex. *)
Lemma C3_counterexample :
  distance_m (mkVec3 0 0 0) earth <= schwarzschild earth /\
  well (mkVec3 0 0 0) earth <> Some 0 /\
  displaced_y (mkVec3 0 0 0) [moon; earth] = None /\
  nth_error
    (CreateGridVertices 10000 50
       [new_Object (mkVec3 (- 5000) (- 900) (- 5000)) (mkVec3 0 0 0)
                   initMass 3344])
    1 = Some None.
Proof.
  assert (Hw : well (mkVec3 0 0 0) earth = None).
  { apply well_at_centre; [apply earth_mass_pos|].
    unfold earth, new_Object, vsub. cbn [position vx vy vz].
    f_equal; ring. }
  assert (Hd : distance_m (mkVec3 0 0 0) earth = 0).
  { unfold distance_m, earth, new_Object, vsub. cbn [position vx vy vz].
    replace (mkVec3 (0 - 0) (0 - 0) (0 - 0)) with (mkVec3 0 0 0)
      by (f_equal; ring).
    rewrite vnorm_zero. ring. }
  pose proof (schwarzschild_pos earth earth_mass_pos) as Hrs.
  split; [lra|]. split; [|split].
  - rewrite Hw. discriminate.
  - unfold displaced_y, totalDisplacement. cbn [fold_left].
    rewrite Hw.
    destruct (fadd (Some 0) (well (mkVec3 0 0 0) moon)); reflexivity.
  - unfold CreateGridVertices.
    destruct (grid_lines_head 10000 50) as [rest Hg]; [lia|].
    rewrite Hg. cbn [displace nth_error]. f_equal.
    unfold displaced_y, totalDisplacement. cbn [fold_left].
    rewrite well_at_centre; [reflexivity| |].
    + cbn [mass new_Object]. unfold initMass. lra.
    + unfold new_Object, vsub. cbn [position vx vy vz]. f_equal; lra.
Qed.

(** C3, amended.  A body whose distance from the sample point equals its
    Schwarzschild radius contributes exactly zero, and whenever every body
    has a non-negative mass and lies at [r_m >= rs] from the sample point
    the evaluation meets no domain error: the displaced value is a finite
    number.  There is no clamp for [r_m < rs]. *)
Theorem C3_no_domain_error_outside_horizon :
  (forall (p : vec3) (o : Object),
      distance_m p o = schwarzschild o -> well p o = Some 0) /\
  (forall (p : vec3) (l : list Object),
      Forall (fun o => 0 <= mass o /\ schwarzschild o <= distance_m p o) l ->
      exists y, displaced_y p l = Some y).
Proof.
  split.
  - apply well_horizon.
  - intros p l Hl. unfold displaced_y, totalDisplacement.
    destruct (totalDisplacement_finite p l Hl 0) as [t Ht].
    rewrite Ht. simpl. eexists. reflexivity.
Qed.

Lemma vnorm_x (a : R) : 0 <= a -> vnorm (mkVec3 a 0 0) = a.
Proof.
  intros Ha. unfold vnorm. simpl.
  replace (a * a + 0 * 0 + 0 * 0) with (a * a) by ring.
  apply sqrt_square. exact Ha.
Qed.

Lemma C3_no_domain_error_outside_horizon_witness :
  (let o := new_Object (mkVec3 1 0 0) (mkVec3 0 0 0)
                       (1000 * (c * c) / (2 * G)) 3344 in
   distance_m (mkVec3 0 0 0) o = schwarzschild o /\
   well (mkVec3 0 0 0) o = Some 0) /\
  (Forall (fun o => 0 <= mass o /\
                    schwarzschild o <= distance_m (mkVec3 0 0 0) o)
          [moon] /\
   exists y, displaced_y (mkVec3 0 0 0) [moon] = Some y).
Proof.
  assert (H1 : let o := new_Object (mkVec3 1 0 0) (mkVec3 0 0 0)
                                   (1000 * (c * c) / (2 * G)) 3344 in
               distance_m (mkVec3 0 0 0) o = schwarzschild o).
  { unfold distance_m, schwarzschild, new_Object, vsub. simpl.
    replace (mkVec3 (1 - 0) (0 - 0) (0 - 0)) with (mkVec3 1 0 0)
      by (f_equal; ring).
    rewrite vnorm_x by lra.
    assert (HG : G <> 0) by (pose proof G_pos; lra).
    assert (Hc : c <> 0) by (unfold c; lra).
    field. split; assumption. }
  assert (H2 : Forall (fun o => 0 <= mass o /\
                         schwarzschild o <= distance_m (mkVec3 0 0 0) o)
                      [moon]).
  { constructor; [|constructor].
    unfold distance_m, schwarzschild, moon, new_Object, set_hasTrail, vsub.
    cbn [position mass vx vy vz].
    replace (mkVec3 (3844 - 0) (0 - 0) (0 - 0)) with (mkVec3 3844 0 0)
      by (f_equal; ring).
    rewrite vnorm_x by lra. unfold G, c. split; lra. }
  split; split.
  - exact H1.
  - apply (proj1 C3_no_domain_error_outside_horizon). exact H1.
  - exact H2.
  - apply (proj2 C3_no_domain_error_outside_horizon). exact H2.
Defined.

(** ** Projections the physics loop preserves *)

Lemma UpdateTrail_stable {A : Type} (f : Object -> A) (fc : Z) (o : Object) :
  stable f -> f (snd (UpdateTrail fc o)) = f o.
Proof.
  intros (_ & _ & _ & Ht). unfold UpdateTrail.
  destruct (negb (hasTrail o)); [reflexivity|].
  destruct (Z.rem (int_wrap (fc + 1)) 5 =? 0)%Z; simpl; [apply Ht|reflexivity].
Qed.

Lemma UpdatePos_stable {A : Type} (f : Object -> A) (s : R) (fc : Z)
    (o : Object) :
  stable f -> f (snd (UpdatePos s fc o)) = f o.
Proof.
  intros Hf. pose proof Hf as (_ & Hr & Hp & _). unfold UpdatePos.
  cbv zeta.
  match goal with
  | |- f (snd (if _ then UpdateTrail _ ?o' else _)) = _ =>
      assert (Ho' : f o' = f o) by (rewrite Hr, Hp; reflexivity)
  end.
  match goal with
  | |- f (snd (if ?b then _ else _)) = _ => destruct b
  end.
  - rewrite UpdateTrail_stable by exact Hf. exact Ho'.
  - exact Ho'.
Qed.

Lemma step_obj_stable {A : Type} (f : Object -> A) (p : bool) (s : R)
    (fc : Z) (others : list Object) (o : Object) :
  stable f -> f (snd (step_obj p s fc others o)) = f o.
Proof.
  intros Hf. pose proof Hf as (Hv & Hr & _ & _). unfold step_obj.
  destruct (pair_loop_velocity_only p s others o) as [v Hvel]. rewrite Hvel.
  assert (H1 : f (if Initalizing (set_velocity o v)
                  then set_radius (set_velocity o v)
                         (radius_of (mass (set_velocity o v))
                                    (density (set_velocity o v)))
                  else set_velocity o v) = f o).
  { destruct (Initalizing (set_velocity o v)); [rewrite Hr|]; apply Hv. }
  destruct (negb p).
  - rewrite UpdatePos_stable by exact Hf. exact H1.
  - exact H1.
Qed.

Lemma physics_loop_stable {A : Type} (f : Object -> A) :
  stable f ->
  forall todo p s fc done,
    map f (snd (physics_loop p s fc done todo)) = map f done ++ map f todo.
Proof.
  intros Hf todo.
  induction todo as [|o rest IH]; intros p s fc done; simpl.
  - rewrite app_nil_r. reflexivity.
  - pose proof (step_obj_stable f p s fc (done ++ rest) o Hf) as Hs.
    destruct (step_obj p s fc (done ++ rest) o) as [fc' o'].
    simpl in Hs. rewrite IH, map_app, <- app_assoc. simpl.
    rewrite Hs. reflexivity.
Qed.

Lemma frame_stable {A : Type} (f : Object -> A) (p : bool) (dt : R)
    (rb : bool) (w : World) :
  stable f ->
  map f (objs (frame p dt rb w)) = map f (grow_back rb dt (objs w)).
Proof.
  intros Hf. unfold frame.
  pose proof (physics_loop_stable f Hf (grow_back rb dt (objs w)) p
                (simulationSpeed w) (frameCount w) []) as H.
  destruct (physics_loop p (simulationSpeed w) (frameCount w) []
              (grow_back rb dt (objs w))) as [fc l].
  exact H.
Qed.

Lemma growth_view_stable : stable growth_view.
Proof. repeat split. Qed.

(** ** Mass growth *)

Lemma map_back_snoc {A : Type} (f : A -> A) (l : list A) (a : A) :
  map_back f (l ++ [a]) = l ++ [f a].
Proof.
  induction l as [|b l IH]; simpl; [reflexivity|].
  rewrite IH. destruct (l ++ [a]) eqn:E; [|reflexivity].
  destruct l; discriminate.
Qed.

Lemma map_snoc_inv {A B : Type} (f : A -> B) (l : list A) (vs : list B)
    (v : B) :
  map f l = vs ++ [v] ->
  exists l' a, l = l' ++ [a] /\ map f l' = vs /\ f a = v.
Proof.
  intros H. destruct l as [|a0 l0] using rev_ind.
  - destruct vs; discriminate.
  - rewrite map_app in H. simpl in H.
    apply app_inj_tail in H. destruct H as [H1 H2].
    exists l0, a0. auto.
Qed.

Lemma growing_frames (dt : R) (vs : list (bool * R)) (n : nat) :
  forall (w : World) (m : R),
    map growth_view (objs w) = vs ++ [(true, m)] ->
    map growth_view (objs (run w (repeat (EFrame false dt true) n))) =
      vs ++ [(true, m * (1 + 1 * dt) ^ n)].
Proof.
  induction n as [|n IH]; intros w m Hw.
  - simpl. rewrite Rmult_1_r. exact Hw.
  - change (run w (repeat (EFrame false dt true) (S n)))
      with (run (frame false dt true w) (repeat (EFrame false dt true) n)).
    rewrite (IH _ (m * (1 + 1 * dt))).
    + simpl. do 2 f_equal. f_equal. ring.
    + rewrite frame_stable by exact growth_view_stable.
      destruct (map_snoc_inv _ _ _ _ Hw) as (l' & a & Hl & Hl' & Ha).
      rewrite Hl. unfold grow_back. rewrite map_back_snoc.
      rewrite map_app, Hl'. simpl. f_equal.
      unfold growth_view in Ha. injection Ha as Hi Hm.
      rewrite Hi. simpl. unfold growth_view. simpl. rewrite Hi, Hm.
      reflexivity.
Qed.


Lemma claimed_growth_factor : exp (ln (101 / 100) * 2) = 10201 / 10000.
Proof.
  replace (ln (101 / 100) * 2) with (ln (101 / 100) + ln (101 / 100)) by ring.
  rewrite exp_plus, exp_ln by lra. lra.
Qed.

Lemma initMass_pos : 0 < initMass.
Proof. unfold initMass. lra. Qed.

(** C9, evaluated on the code.  A body is created with a left press and
    the right button is then held for 120 frames of 1/60 s (two seconds).
    Each frame multiplies the mass by [1 + 1 * deltaTime], so the body ends
    with [initMass * (61/60)^120], more than seven times the
    [initMass * e^(ln(1.01) * 2)] of a 1 %-per-second growth; the radius
    still follows the mass-radius formula. *)
Theorem C9_growth_two_seconds :
  let w := run (mouseButtonCallback BUTTON_LEFT PRESS initial_World)
               (repeat (EFrame false (1 / 60) true) 120) in
  map growth_view (objs w) =
    [(false, mass moon); (false, mass earth);
     (true, initMass * (1 + 1 * (1 / 60)) ^ 120)] /\
  7 * (initMass * exp (ln (101 / 100) * 2)) <
    initMass * (1 + 1 * (1 / 60)) ^ 120 /\
  Forall radius_ok (objs w).
Proof.
  cbv zeta. split; [|split].
  - apply (growing_frames (1 / 60) [(false, mass moon); (false, mass earth)]).
    reflexivity.
  - rewrite claimed_growth_factor.
    pose proof initMass_pos as Hm.
    assert (H : 7 * (10201 / 10000) < (1 + 1 * (1 / 60)) ^ 120) by lra.
    nra.
  - apply run_Forall.
    + intros e w. apply handle_radius_ok.
    + repeat constructor.
Qed.

(** ** Sampling cadence *)

Lemma UpdateTrail_view (fc : Z) (o : Object) :
  (fst (UpdateTrail fc o), trail_view (snd (UpdateTrail fc o))) =
    view_step fc (trail_view o).
Proof.
  unfold UpdateTrail, view_step.
  change (fst (trail_view o)) with (hasTrail o).
  change (snd (trail_view o)) with (length (trailSpheres o)).
  destruct (hasTrail o) eqn:Ht; simpl negb; cbv iota.
  - cbv zeta.
    destruct (Z.rem (int_wrap (fc + 1)) 5 =? 0)%Z.
    + unfold trail_view, set_trailSpheres.
      cbn [fst snd hasTrail trailSpheres]. rewrite Ht. do 2 f_equal.
      rewrite length_app. cbn [length].
      replace (length (trailSpheres o) + 1)%nat
        with (S (length (trailSpheres o))) by lia.
      destruct (Z.of_nat (S (length (trailSpheres o))) >? maxTrailLength)%Z.
      * destruct (trailSpheres o); cbn [app tl length]; [reflexivity|].
        rewrite length_app. cbn [length]. lia.
      * rewrite length_app. cbn [length]. lia.
    + reflexivity.
  - reflexivity.
Qed.

Lemma UpdatePos_view (s : R) (fc : Z) (o : Object) :
  (fst (UpdatePos s fc o), trail_view (snd (UpdatePos s fc o))) =
    view_step fc (trail_view o).
Proof.
  unfold UpdatePos. cbv zeta.
  match goal with
  | |- context [if hasTrail ?o' then _ else _] =>
      change (hasTrail o') with (hasTrail o);
      assert (Hv : trail_view o' = trail_view o) by reflexivity;
      generalize dependent o'
  end.
  intros o' Hv. destruct (hasTrail o) eqn:Ht.
  - rewrite UpdateTrail_view, Hv. reflexivity.
  - simpl. rewrite Hv. unfold view_step, trail_view. simpl.
    rewrite Ht. reflexivity.
Qed.

Lemma step_obj_view (s : R) (fc : Z) (others : list Object) (o : Object) :
  (fst (step_obj false s fc others o),
   trail_view (snd (step_obj false s fc others o))) =
    view_step fc (trail_view o).
Proof.
  unfold step_obj.
  destruct (pair_loop_velocity_only false s others o) as [v Hv]. rewrite Hv.
  simpl negb. cbv iota.
  rewrite UpdatePos_view. f_equal.
  destruct (Initalizing (set_velocity o v)); reflexivity.
Qed.

(** ** Powers and distances *)

Lemma pow_half (x : R) : 0 <= x -> pow x (1 / 2) = sqrt x.
Proof.
  intros Hx. unfold pow.
  destruct (Req_dec_T x 0) as [E|N].
  - subst x. symmetry. apply sqrt_0.
  - replace (1 / 2) with (/ 2) by lra. apply Rpower_sqrt. lra.
Qed.

Lemma pow_cube_root (x : R) : 0 < x -> pow (x * x * x) (1 / 3) = x.
Proof.
  intros Hx. unfold pow.
  destruct (Req_dec_T (x * x * x) 0) as [E|_].
  - assert (0 < x * x * x) by (repeat apply Rmult_lt_0_compat; exact Hx). lra.
  - replace (x * x * x) with (Rpower x (INR 3))
      by (rewrite Rpower_pow by exact Hx; simpl; ring).
    rewrite Rpower_mult.
    replace (INR 3 * (1 / 3)) with 1 by (simpl; lra).
    apply Rpower_1. exact Hx.
Qed.

Lemma ball_radius (p v : vec3) : radius (ball p v) = 1.
Proof.
  unfold ball, new_Object, radius_of. cbn [radius].
  replace (3 * (4 * PI_LIT * 10 ^ 15) / 3 / (4 * PI_LIT))
    with (10 ^ 5 * 10 ^ 5 * 10 ^ 5) by (unfold PI_LIT; lra).
  rewrite pow_cube_root by lra. lra.
Qed.

Lemma sum_sqr_nonneg (a b d : R) : 0 <= a * a + b * b + d * d.
Proof. nra. Qed.

Lemma CheckCollision_distance (this other : Object) :
  CheckCollision this other =
    if Rgt_dec (radius other + radius this) (pair_distance this other)
    then - (2 / 10) else 1.
Proof.
  unfold CheckCollision, pair_distance. cbv zeta.
  rewrite pow_half by apply sum_sqr_nonneg. reflexivity.
Qed.

Lemma CheckCollision_cases (this other : Object) :
  CheckCollision this other = - (2 / 10) \/ CheckCollision this other = 1.
Proof.
  rewrite CheckCollision_distance.
  destruct (Rgt_dec (radius other + radius this) (pair_distance this other));
    auto.
Qed.

Lemma pair_distance_sym (a b : Object) : pair_distance a b = pair_distance b a.
Proof. unfold pair_distance. cbv zeta. f_equal. ring. Qed.

(** ** One pair of the loop *)

Lemma interact_active (p : bool) (s : R) (a b : Object) :
  Initalizing a = false -> Initalizing b = false ->
  0 < pair_distance a b ->
  interact p s a b =
    let a' := if negb p then accelerate s a (pair_acc a b) else a in
    set_velocity a' (vscale (CheckCollision a' b) (velocity a')).
Proof.
  intros Ha Hb Hd. unfold interact. rewrite Ha, Hb. simpl andb. cbv iota.
  destruct (Rgt_dec (pair_distance a b) 0) as [_|N]; [reflexivity|].
  exfalso. apply N. exact Hd.
Qed.

Lemma interact_coincident (p : bool) (s : R) (a b : Object) :
  pair_distance a b = 0 -> interact p s a b = a.
Proof.
  intros Hd. unfold interact.
  destruct (negb (Initalizing a) && negb (Initalizing b)); [|reflexivity].
  destruct (Rgt_dec (pair_distance a b) 0) as [H|_]; [|reflexivity].
  rewrite Hd in H. exfalso. lra.
Qed.

Lemma vscale_one (v : vec3) : vscale 1 v = v.
Proof. destruct v as [x y z]. unfold vscale. simpl. f_equal; ring. Qed.

(** C4, as stated, fails at distance 0: two unit balls at the same place
    overlap ([radiusA + radiusB = 2 > 0 = distance]), yet the pair loop
    leaves A's velocity as it was instead of scaling it by -0.2. *)
Lemma C4_counterexample :
  let A := ball (mkVec3 0 0 0) (mkVec3 1 0 0) in
  let B := ball (mkVec3 0 0 0) (mkVec3 0 0 0) in
  Initalizing A = false /\ Initalizing B = false /\
  radius A + radius B > pair_distance A B /\
  velocity (interact false 1 A B) <> vscale (- (2 / 10)) (velocity A).
Proof.
  cbv zeta.
  assert (Hd : pair_distance (ball (mkVec3 0 0 0) (mkVec3 1 0 0))
                             (ball (mkVec3 0 0 0) (mkVec3 0 0 0)) = 0).
  { unfold pair_distance, ball, new_Object. cbn [position vx vy vz].
    replace ((0 - 0) * (0 - 0) + (0 - 0) * (0 - 0) + (0 - 0) * (0 - 0))
      with 0 by ring.
    apply sqrt_0. }
  split; [reflexivity|]. split; [reflexivity|]. split.
  - rewrite Hd, !ball_radius. lra.
  - rewrite interact_coincident by exact Hd.
    unfold ball, new_Object, vscale. cbn [velocity vx vy vz].
    intros H. apply (f_equal vx) in H. cbn [vx] in H. lra.
Qed.

(** C4, amended.  For an ordered pair (A, B) of Active bodies at a
    distance greater than 0, A's velocity (after the pair's acceleration,
    when the tick is not paused) is scaled by exactly -0.2 if
    [radiusA + radiusB > distance] and by exactly 1.0 otherwise, so two
    bodies exactly touching get no damping; a pair at distance 0 is
    skipped by the [distance > 0] guard and A is left unchanged. *)
Theorem C4_collision_factor (pause : bool) (speed : R) (A B : Object) :
  Initalizing A = false -> Initalizing B = false ->
  let A' := if negb pause then accelerate speed A (pair_acc A B) else A in
  (0 < pair_distance A B ->
     velocity (interact pause speed A B) =
       vscale (if Rgt_dec (radius A + radius B) (pair_distance A B)
               then - (2 / 10) else 1)
              (velocity A')) /\
  (0 < pair_distance A B -> pair_distance A B = radius A + radius B ->
     velocity (interact pause speed A B) = velocity A') /\
  (pair_distance A B = 0 -> interact pause speed A B = A).
Proof.
  intros HA HB A'.
  assert (Hv : 0 < pair_distance A B ->
               velocity (interact pause speed A B) =
                 vscale (if Rgt_dec (radius A + radius B) (pair_distance A B)
                         then - (2 / 10) else 1)
                        (velocity A')).
  { intros Hd. rewrite (interact_active pause speed A B HA HB Hd).
    cbv zeta. fold A'. cbn [velocity set_velocity].
    rewrite CheckCollision_distance.
    assert (HA' : radius A' = radius A /\
                  pair_distance A' B = pair_distance A B).
    { unfold A'. destruct (negb pause); split; reflexivity. }
    destruct HA' as [Hr Hp]. rewrite Hr, Hp.
    rewrite (Rplus_comm (radius B) (radius A)). reflexivity. }
  split; [exact Hv|]. split.
  - intros Hd Ht. rewrite (Hv Hd).
    destruct (Rgt_dec (radius A + radius B) (pair_distance A B)) as [H|_].
    + exfalso. lra.
    + apply vscale_one.
  - apply interact_coincident.
Qed.

Lemma C4_collision_factor_witness :
  let A := ball (mkVec3 0 0 0) (mkVec3 1 0 0) in
  let B := ball (mkVec3 2 0 0) (mkVec3 0 0 0) in
  0 < pair_distance A B /\
  pair_distance A B = radius A + radius B /\
  velocity (interact true 1 A B) = velocity A.
Proof.
  cbv zeta.
  assert (Hd : pair_distance (ball (mkVec3 0 0 0) (mkVec3 1 0 0))
                             (ball (mkVec3 2 0 0) (mkVec3 0 0 0)) = 2).
  { unfold pair_distance, ball, new_Object. cbn [position vx vy vz].
    replace ((2 - 0) * (2 - 0) + (0 - 0) * (0 - 0) + (0 - 0) * (0 - 0))
      with (2 * 2) by ring.
    apply sqrt_square. lra. }
  split; [rewrite Hd; lra|]. split; [rewrite Hd, !ball_radius; lra|].
  apply (C4_collision_factor true 1
           (ball (mkVec3 0 0 0) (mkVec3 1 0 0))
           (ball (mkVec3 2 0 0) (mkVec3 0 0 0))).
  - reflexivity.
  - reflexivity.
  - rewrite Hd. lra.
  - rewrite Hd, !ball_radius. lra.
Defined.

(** ** Newton's third law for one pair *)

Lemma vnorm_vscale (k : R) (v : vec3) : 0 <= k -> vnorm (vscale k v) = k * vnorm v.
Proof.
  intros Hk. unfold vnorm, vscale. cbn [vx vy vz].
  replace (vx v * k * (vx v * k) + vy v * k * (vy v * k) +
           vz v * k * (vz v * k))
    with (k * k * (vx v * vx v + vy v * vy v + vz v * vz v)) by ring.
  rewrite sqrt_mult_alt by nra.
  rewrite sqrt_square by exact Hk. reflexivity.
Qed.

Lemma vnorm_vneg (v : vec3) : vnorm (vneg v) = vnorm v.
Proof. unfold vnorm, vneg. cbn [vx vy vz]. f_equal. ring. Qed.

Lemma vscale_neg (k : R) (v : vec3) : vscale (- k) v = vneg (vscale k v).
Proof. unfold vscale, vneg. cbn [vx vy vz]. f_equal; ring. Qed.

Lemma pair_acc_reaction (A B : Object) :
  mass A <> 0 -> mass B <> 0 -> 0 < pair_distance A B ->
  pair_acc A B = vscale (- (mass B / mass A)) (pair_acc B A).
Proof.
  intros HA HB Hd.
  pose proof Hd as Hd'. rewrite pair_distance_sym in Hd'.
  unfold pair_acc, vscale. cbv zeta. cbn [vx vy vz].
  fold (pair_distance A B). fold (pair_distance B A).
  rewrite (pair_distance_sym B A).
  assert (Hr : pair_distance A B <> 0) by lra.
  f_equal; field; repeat split; assumption.
Qed.

(** ** The first frame of the scene of [main] *)

Lemma step_obj_single (p : bool) (s : R) (fc : Z) (a b : Object) :
  Initalizing a = false ->
  step_obj p s fc [b] a =
    if negb p then UpdatePos s fc (interact p s a b)
    else (fc, interact p s a b).
Proof.
  intros Ha. unfold step_obj. cbn [fold_left].
  destruct (interact_velocity_only p s a b) as [v Hv]. rewrite Hv.
  cbn [Initalizing set_velocity]. rewrite Ha. reflexivity.
Qed.

Lemma UpdateTrail_kinematics (fc : Z) (o : Object) :
  position (snd (UpdateTrail fc o)) = position o /\
  velocity (snd (UpdateTrail fc o)) = velocity o /\
  mass (snd (UpdateTrail fc o)) = mass o /\
  Initalizing (snd (UpdateTrail fc o)) = Initalizing o.
Proof.
  unfold UpdateTrail.
  destruct (negb (hasTrail o)); [repeat split|].
  destruct (Z.rem (int_wrap (fc + 1)) 5 =? 0)%Z; repeat split.
Qed.

Lemma UpdatePos_kinematics (s : R) (fc : Z) (o : Object) :
  position (snd (UpdatePos s fc o)) =
    mkVec3 (vx (position o) + vx (velocity o) / 94 * s)
           (vy (position o) + vy (velocity o) / 94 * s)
           (vz (position o) + vz (velocity o) / 94 * s) /\
  velocity (snd (UpdatePos s fc o)) = velocity o /\
  mass (snd (UpdatePos s fc o)) = mass o /\
  Initalizing (snd (UpdatePos s fc o)) = Initalizing o.
Proof.
  unfold UpdatePos. cbv zeta.
  match goal with
  | |- context [if ?b then UpdateTrail fc ?o' else _] =>
      destruct b;
      [destruct (UpdateTrail_kinematics fc o') as (Hp & Hv & Hm & Hi);
       rewrite Hp, Hv, Hm, Hi|];
      repeat split
  end.
Qed.

Lemma pair_acc_vz_zero (a b : Object) :
  vz (position b) = vz (position a) -> vz (pair_acc a b) = 0.
Proof.
  intros H. unfold pair_acc. cbv zeta. cbn [vz]. rewrite H.
  unfold Rdiv, Rminus. rewrite Rplus_opp_r. ring.
Qed.

Lemma pair_distance_pos_z (a b : Object) :
  vz (position b) <> vz (position a) -> 0 < pair_distance a b.
Proof.
  intros H. unfold pair_distance. cbv zeta. apply sqrt_lt_R0.
  assert (Hz : vz (position b) - vz (position a) <> 0) by lra.
  pose proof (Rsqr_pos_lt _ Hz) as Hq.
  pose proof (Rle_0_sqr (vx (position b) - vx (position a))) as Hx.
  pose proof (Rle_0_sqr (vy (position b) - vy (position a))) as Hy.
  unfold Rsqr in Hq, Hx, Hy. lra.
Qed.

Lemma pair_acc_vz_nonzero (a b : Object) :
  0 < mass a -> 0 < mass b ->
  vz (position b) <> vz (position a) -> vz (pair_acc a b) <> 0.
Proof.
  intros Ha Hb Hz.
  pose proof (pair_distance_pos_z a b Hz) as Hd.
  unfold pair_acc. cbv zeta. cbn [vx vy vz]. fold (pair_distance a b).
  set (d := pair_distance a b) in *.
  assert (H1 : (vz (position b) - vz (position a)) / d <> 0).
  { unfold Rdiv. apply Rmult_integral_contrapositive_currified; [lra|].
    apply Rinv_neq_0_compat. lra. }
  assert (H2 : 0 < G * mass a * mass b / (d * 1000 * (d * 1000)) / mass a).
  { pose proof G_pos.
    apply Rdiv_lt_0_compat; [|exact Ha].
    apply Rdiv_lt_0_compat; [|nra].
    apply Rmult_lt_0_compat; [|exact Hb].
    apply Rmult_lt_0_compat; assumption. }
  apply Rmult_integral_contrapositive_currified; [exact H1|lra].
Qed.

Lemma interact_vz (s : R) (a b : Object) :
  Initalizing a = false -> Initalizing b = false ->
  0 < pair_distance a b ->
  exists f, (f = - (2 / 10) \/ f = 1) /\
    vz (velocity (interact false s a b)) =
      (vz (velocity a) + vz (pair_acc a b) / 96 * s) * f.
Proof.
  intros Ha Hb Hd. rewrite (interact_active false s a b Ha Hb Hd).
  cbv zeta. cbn [negb]. cbv iota.
  exists (CheckCollision (accelerate s a (pair_acc a b)) b). split.
  - apply CheckCollision_cases.
  - reflexivity.
Qed.

Lemma moon_mass_pos : 0 < mass moon.
Proof.
  change (mass moon) with (734767309 / 10 ^ 8 * 10 ^ 22).
  apply Rmult_lt_0_compat; [|apply pow_lt; lra].
  apply Rdiv_lt_0_compat; [lra|apply pow_lt; lra].
Qed.

Lemma moon_earth_distance : 0 < pair_distance moon earth.
Proof.
  unfold pair_distance. cbv zeta. apply sqrt_lt_R0.
  unfold moon, earth, new_Object, set_hasTrail. cbn [position vx vy vz].
  lra.
Qed.

(** The Moon after its turn in the first frame: it has left the plane
    z = 0. *)
Lemma moved_moon (fc : Z) :
  let moon' := snd (step_obj false 1 fc [earth] moon) in
  vz (position moon') <> 0 /\ mass moon' = mass moon /\
  Initalizing moon' = false.
Proof.
  cbv zeta. rewrite step_obj_single by reflexivity. cbn [negb]. cbv iota.
  destruct (UpdatePos_kinematics 1 fc (interact false 1 moon earth))
    as (Hp & _ & Hm & Hi).
  destruct (interact_velocity_only false 1 moon earth) as [v Hv].
  split; [|split].
  - rewrite Hp. cbn [vz].
    destruct (interact_vz 1 moon earth eq_refl eq_refl moon_earth_distance)
      as (f & Hf & Hvz).
    rewrite Hvz, pair_acc_vz_zero by reflexivity.
    rewrite Hv. cbn [position set_velocity].
    change (vz (position moon)) with 0.
    change (vz (velocity moon)) with 228.
    destruct Hf as [Hf|Hf]; rewrite Hf; lra.
  - rewrite Hm, Hv. reflexivity.
  - rewrite Hi, Hv. reflexivity.
Qed.

(** C5, as stated, fails on the first frame of the scene [main] builds.
    The Moon is visited first, is given [pair_acc moon earth] and moves
    along z; the Earth is then given [pair_acc earth moon'], computed from
    the Moon's new position.  The first has no z component, the second
    has, so the two are not opposite. *)
Lemma C5_counterexample :
  let moon' := snd (step_obj false 1 0 [earth] moon) in
  snd (physics_loop false 1 0 [] [moon; earth]) =
    [moon'; snd (UpdatePos 1 (fst (step_obj false 1 0 [earth] moon))
                   (interact false 1 earth moon'))] /\
  moon' = snd (UpdatePos 1 0 (interact false 1 moon earth)) /\
  interact false 1 moon earth =
    (let m := accelerate 1 moon (pair_acc moon earth) in
     set_velocity m (vscale (CheckCollision m earth) (velocity m))) /\
  interact false 1 earth moon' =
    (let e := accelerate 1 earth (pair_acc earth moon') in
     set_velocity e (vscale (CheckCollision e moon') (velocity e))) /\
  ~ third_law (mass moon) (pair_acc moon earth)
              (mass earth) (pair_acc earth moon').
Proof.
  cbv zeta.
  destruct (moved_moon 0) as (Hz & Hm & Hi). cbv zeta in Hz, Hm, Hi.
  assert (Hz' : vz (position (snd (step_obj false 1 0 [earth] moon))) <>
                vz (position earth)) by exact Hz.
  split; [|split; [|split; [|split]]].
  - cbn [physics_loop app].
    destruct (step_obj false 1 0 [earth] moon) as [fc1 moon'] eqn:E1.
    cbn [fst snd] in *.
    rewrite step_obj_single by reflexivity. cbn [negb]. cbv iota.
    destruct (UpdatePos 1 fc1 (interact false 1 earth moon')); reflexivity.
  - rewrite step_obj_single by reflexivity. reflexivity.
  - apply (interact_active false 1 moon earth eq_refl eq_refl).
    exact moon_earth_distance.
  - apply (interact_active false 1 earth _ eq_refl Hi).
    apply pair_distance_pos_z. exact Hz'.
  - intros [[k [Hk Hopp]] _].
    apply (f_equal vz) in Hopp. unfold vscale in Hopp. cbn [vz] in Hopp.
    rewrite pair_acc_vz_zero in Hopp by reflexivity.
    pose proof (pair_acc_vz_nonzero earth _ earth_mass_pos
                  (eq_ind_r (fun m => 0 < m) moon_mass_pos Hm) Hz') as Hn.
    apply Hn.
    assert (Hm0 : vz (pair_acc earth (snd (step_obj false 1 0 [earth] moon)))
                  * k = 0) by lra.
    apply Rmult_integral in Hm0. destruct Hm0; [assumption|lra].
Qed.

(** C5, amended.  For two Active bodies of positive mass at a separation
    greater than 0, the accelerations the pair loop computes for A from B
    and for B from A out of one and the same pair of positions point in
    exactly opposite directions and satisfy [mA * |aA| = mB * |aB|]. *)
Theorem C5_third_law_same_positions (A B : Object) :
  0 < mass A -> 0 < mass B -> 0 < pair_distance A B ->
  third_law (mass A) (pair_acc A B) (mass B) (pair_acc B A).
Proof.
  intros HA HB Hd.
  assert (Hk : 0 < mass B / mass A) by (apply Rdiv_lt_0_compat; assumption).
  pose proof (pair_acc_reaction A B) as Hr.
  split.
  - exists (mass B / mass A). split; [exact Hk|]. apply Hr; lra.
  - rewrite Hr by lra. rewrite vscale_neg, vnorm_vneg.
    rewrite vnorm_vscale by lra. field. lra.
Qed.

Lemma C5_third_law_same_positions_witness :
  0 < mass moon /\ 0 < mass earth /\ 0 < pair_distance moon earth /\
  third_law (mass moon) (pair_acc moon earth) (mass earth)
            (pair_acc earth moon).
Proof.
  split; [exact moon_mass_pos|]. split; [exact earth_mass_pos|].
  split; [exact moon_earth_distance|].
  apply C5_third_law_same_positions.
  - exact moon_mass_pos.
  - exact earth_mass_pos.
  - exact moon_earth_distance.
Defined.

(** ** Paused frames *)

Lemma physics_loop_map {A : Type} (f : Object -> A) (p : bool) :
  (forall s fc others o, f (snd (step_obj p s fc others o)) = f o) ->
  forall todo s fc done,
    map f (snd (physics_loop p s fc done todo)) = map f done ++ map f todo.
Proof.
  intros Hf todo.
  induction todo as [|o rest IH]; intros s fc done; simpl.
  - rewrite app_nil_r. reflexivity.
  - pose proof (Hf s fc (done ++ rest) o) as Hs.
    destruct (step_obj p s fc (done ++ rest) o) as [fc' o'].
    simpl in Hs. rewrite IH, map_app, <- app_assoc. simpl.
    rewrite Hs. reflexivity.
Qed.

Lemma map_back_map {A B : Type} (g : A -> B) (f : A -> A) (l : list A) :
  (forall a, g (f a) = g a) -> map g (map_back f l) = map g l.
Proof.
  intros H. induction l as [|a l IH]; [reflexivity|].
  destruct l as [|b l].
  - simpl. rewrite H. reflexivity.
  - change (map_back f (a :: b :: l)) with (a :: map_back f (b :: l)).
    cbn [map]. f_equal. exact IH.
Qed.

Lemma grow_back_released (dt : R) (l : list Object) :
  grow_back false dt l = l.
Proof.
  unfold grow_back. induction l as [|a l IH]; simpl; [reflexivity|].
  rewrite IH, andb_false_r. destruct l; reflexivity.
Qed.

Lemma paused_step_position (s : R) (fc : Z) (others : list Object)
    (o : Object) :
  position (snd (step_obj true s fc others o)) = position o.
Proof.
  unfold step_obj.
  destruct (pair_loop_velocity_only true s others o) as [v Hv]. rewrite Hv.
  cbn [negb snd Initalizing set_velocity].
  destruct (Initalizing o); reflexivity.
Qed.

Lemma paused_frame_positions (dt : R) (rb : bool) (w : World) :
  map position (objs (frame true dt rb w)) = map position (objs w).
Proof.
  unfold frame.
  pose proof (physics_loop_map position true paused_step_position
                (grow_back rb dt (objs w)) (simulationSpeed w)
                (frameCount w) []) as H.
  destruct (physics_loop true (simulationSpeed w) (frameCount w) []
              (grow_back rb dt (objs w))) as [fc l].
  cbn [objs snd map app] in *. rewrite H.
  unfold grow_back. apply map_back_map.
  intros o. destruct (Initalizing o && rb); reflexivity.
Qed.

Lemma unit_ball_distance (v1 v2 : vec3) :
  pair_distance (ball (mkVec3 0 0 0) v1) (ball (mkVec3 1 0 0) v2) = 1.
Proof.
  unfold pair_distance, ball, new_Object. cbn [position vx vy vz].
  replace ((1 - 0) * (1 - 0) + (0 - 0) * (0 - 0) + (0 - 0) * (0 - 0))
    with (1 * 1) by ring.
  apply sqrt_square. lra.
Qed.

(** C2, evaluated on the code.  Two overlapping unit balls, one unit
    apart, go through a paused frame: their positions stay as they were,
    but the velocity of each is multiplied by the collision factor -0.2,
    so the first ball's velocity changes although the tick is paused. *)
Theorem C2_paused_frame_scales_velocity :
  let A := ball (mkVec3 0 0 0) (mkVec3 1 0 0) in
  let B := ball (mkVec3 1 0 0) (mkVec3 0 0 0) in
  let w := mkWorld [A; B] 1 0 in
  let w' := frame true (1 / 60) false w in
  map position (objs w') = map position (objs w) /\
  map velocity (objs w') =
    [vscale (- (2 / 10)) (velocity A); vscale (- (2 / 10)) (velocity B)] /\
  vscale (- (2 / 10)) (velocity A) <> velocity A.
Proof.
  cbv zeta. split; [apply paused_frame_positions|]. split.
  - unfold frame. cbn [objs simulationSpeed frameCount].
    rewrite grow_back_released.
    set (A := ball (mkVec3 0 0 0) (mkVec3 1 0 0)).
    set (B := ball (mkVec3 1 0 0) (mkVec3 0 0 0)).
    assert (HAB : pair_distance A B = 1) by apply unit_ball_distance.
    assert (HA : interact true 1 A B =
                 set_velocity A (vscale (- (2 / 10)) (velocity A))).
    { rewrite interact_active by (try reflexivity; rewrite HAB; lra).
      cbv zeta. cbn [negb]. cbv iota.
      rewrite CheckCollision_distance, HAB.
      unfold A, B. rewrite !ball_radius.
      destruct (Rgt_dec (1 + 1) 1) as [_|N]; [reflexivity|exfalso; lra]. }
    assert (HBA : pair_distance B (interact true 1 A B) = 1).
    { rewrite HA, pair_distance_sym. exact HAB. }
    assert (HB : interact true 1 B (interact true 1 A B) =
                 set_velocity B (vscale (- (2 / 10)) (velocity B))).
    { rewrite (interact_active true 1 B (interact true 1 A B));
        [|reflexivity|rewrite HA; reflexivity|rewrite HBA; lra].
      cbv zeta. cbn [negb]. cbv iota.
      rewrite CheckCollision_distance, HBA, HA.
      cbn [radius set_velocity].
      unfold A, B. rewrite !ball_radius.
      destruct (Rgt_dec (1 + 1) 1) as [_|N]; [reflexivity|exfalso; lra]. }
    cbn [physics_loop app].
    rewrite step_obj_single by reflexivity. cbn [negb]. cbv iota.
    rewrite step_obj_single by reflexivity. cbn [negb]. cbv iota.
    cbn [objs map]. rewrite HB, HA. reflexivity.
  - unfold ball, new_Object, vscale. cbn [velocity vx vy vz].
    intros H. apply (f_equal vx) in H. cbn [vx] in H. lra.
Qed.

(** ** Order of the updates inside a tick *)

Lemma physics_loop_prefix (p : bool) (s : R) (todo : list Object) :
  forall (fc : Z) (done : list Object),
    exists stepped,
      snd (physics_loop p s fc done todo) = done ++ stepped /\
      length stepped = length todo.
Proof.
  induction todo as [|o rest IH]; intros fc done; cbn [physics_loop].
  - exists []. rewrite app_nil_r. split; reflexivity.
  - destruct (step_obj p s fc (done ++ rest) o) as [fc' o'].
    destruct (IH fc' (done ++ [o'])) as (stepped & Hs & Hl).
    exists (o' :: stepped). rewrite Hs, <- app_assoc.
    split; [reflexivity|]. simpl. rewrite Hl. reflexivity.
Qed.

Lemma physics_loop_nth (p : bool) (s : R) (todo : list Object) :
  forall (fc : Z) (done : list Object) (i : nat) (o : Object),
    nth_error todo i = Some o ->
    let result := snd (physics_loop p s fc done todo) in
    exists fc_i,
      nth_error result (length done + i) =
        Some (snd (step_obj p s fc_i
                     (firstn (length done + i) result ++ skipn (S i) todo)
                     o)).
Proof.
  induction todo as [|o0 rest IH]; intros fc done i o Hi.
  - destruct i; discriminate.
  - cbn [physics_loop]. cbv zeta.
    destruct (step_obj p s fc (done ++ rest) o0) as [fc' o0'] eqn:E.
    destruct i as [|j].
    + injection Hi as <-. exists fc.
      destruct (physics_loop_prefix p s rest fc' (done ++ [o0']))
        as (stepped & Hs & _).
      rewrite Hs, <- app_assoc, Nat.add_0_r.
      rewrite nth_error_app2 by lia. rewrite Nat.sub_diag.
      rewrite firstn_app, Nat.sub_diag, firstn_all, firstn_O, app_nil_r.
      cbn [app nth_error skipn]. rewrite E. reflexivity.
    + cbn [nth_error] in Hi.
      destruct (IH fc' (done ++ [o0']) j o Hi) as [fc_i Hfc]. cbv zeta in Hfc.
      exists fc_i. rewrite length_app in Hfc. cbn [length] in Hfc.
      replace (length done + S j)%nat with (length done + 1 + j)%nat by lia.
      exact Hfc.
Qed.

Lemma snapshot_loop_prefix (p : bool) (s : R) (todo : list Object) :
  forall (fc : Z) (before out : list Object),
    exists stepped,
      snd (snapshot_loop p s fc before out todo) = out ++ stepped /\
      length stepped = length todo.
Proof.
  induction todo as [|o rest IH]; intros fc before out; cbn [snapshot_loop].
  - exists []. rewrite app_nil_r. split; reflexivity.
  - destruct (step_obj p s fc (before ++ rest) o) as [fc' o'].
    destruct (IH fc' (before ++ [o]) (out ++ [o'])) as (stepped & Hs & Hl).
    exists (o' :: stepped). rewrite Hs, <- app_assoc.
    split; [reflexivity|]. simpl. rewrite Hl. reflexivity.
Qed.

Lemma snapshot_loop_nth (p : bool) (s : R) (todo : list Object) :
  forall (fc : Z) (before out : list Object) (i : nat) (o : Object),
    nth_error todo i = Some o ->
    exists fc_i,
      nth_error (snd (snapshot_loop p s fc before out todo))
                (length out + i) =
        Some (snd (step_obj p s fc_i
                     (before ++ firstn i todo ++ skipn (S i) todo) o)).
Proof.
  induction todo as [|o0 rest IH]; intros fc before out i o Hi.
  - destruct i; discriminate.
  - cbn [snapshot_loop].
    destruct (step_obj p s fc (before ++ rest) o0) as [fc' o0'] eqn:E.
    destruct i as [|j].
    + injection Hi as <-. exists fc.
      destruct (snapshot_loop_prefix p s rest fc' (before ++ [o0])
                                     (out ++ [o0']))
        as (stepped & Hs & _).
      rewrite Hs, <- app_assoc, Nat.add_0_r.
      rewrite nth_error_app2 by lia. rewrite Nat.sub_diag.
      cbn [app nth_error skipn firstn]. rewrite E. reflexivity.
    + cbn [nth_error] in Hi.
      destruct (IH fc' (before ++ [o0]) (out ++ [o0']) j o Hi) as [fc_i Hfc].
      exists fc_i. rewrite length_app in Hfc. cbn [length] in Hfc.
      replace (length out + S j)%nat with (length out + 1 + j)%nat by lia.
      rewrite Hfc. cbn [firstn skipn]. rewrite <- !app_assoc. reflexivity.
Qed.

Lemma earth_step_vz (fc : Z) (m : Object) :
  Initalizing m = false -> 0 < pair_distance earth m ->
  exists f, (f = - (2 / 10) \/ f = 1) /\
    vz (velocity (snd (step_obj false 1 fc [m] earth))) =
      (0 + vz (pair_acc earth m) / 96 * 1) * f.
Proof.
  intros Hm Hd. rewrite step_obj_single by reflexivity.
  cbn [negb]. cbv iota.
  destruct (UpdatePos_kinematics 1 fc (interact false 1 earth m))
    as (_ & Hv & _ & _).
  rewrite Hv. apply (interact_vz 1 earth m eq_refl Hm Hd).
Qed.

(** C1, as stated, fails on the first frame of the scene [main] builds:
    the Earth is accelerated towards the position the Moon has just been
    moved to, and ends the frame with a velocity the compute-then-apply
    reference does not give it. *)
Lemma C1_counterexample :
  objs (frame false (1 / 60) false initial_World) <>
  objs (snapshot_frame false (1 / 60) false initial_World).
Proof.
  unfold frame, snapshot_frame.
  cbn [objs simulationSpeed frameCount initial_World].
  rewrite grow_back_released.
  cbn [physics_loop snapshot_loop app].
  destruct (step_obj false 1 0 [earth] moon) as [fc1 moon'] eqn:E1.
  destruct (moved_moon 0) as (Hz & Hm & Hi). cbv zeta in Hz, Hm, Hi.
  rewrite E1 in Hz, Hm, Hi. cbn [snd] in Hz, Hm, Hi.
  assert (Hz' : vz (position moon') <> vz (position earth)) by exact Hz.
  destruct (earth_step_vz fc1 moon' Hi (pair_distance_pos_z earth moon' Hz'))
    as (f1 & Hf1 & Hv1).
  assert (Hd0 : 0 < pair_distance earth moon).
  { rewrite pair_distance_sym. exact moon_earth_distance. }
  destruct (earth_step_vz fc1 moon eq_refl Hd0) as (f2 & Hf2 & Hv2).
  rewrite pair_acc_vz_zero in Hv2 by reflexivity.
  pose proof (pair_acc_vz_nonzero earth moon' earth_mass_pos
                (eq_ind_r (fun m => 0 < m) moon_mass_pos Hm) Hz') as Hn.
  destruct (step_obj false 1 fc1 [moon'] earth) as [fc2 e1].
  destruct (step_obj false 1 fc1 [moon] earth) as [fc2' e2].
  cbn [objs snd] in *.
  intros H. injection H as He. subst e2.
  rewrite Hv1 in Hv2.
  assert (Hf1' : f1 <> 0) by (destruct Hf1; lra).
  assert (H0 : (0 + vz (pair_acc earth moon') / 96 * 1) * f1 = 0)
    by (rewrite Hv2; lra).
  apply Rmult_integral in H0. destruct H0 as [H0|H0]; [|contradiction].
  apply Hn. lra.
Qed.

(** C1, amended.  A tick updates the bodies in place, in vector order:
    the body at index [i] is stepped against the bodies before it as this
    same tick has already left them and against the bodies after it as
    they were when the tick began, where the compute-then-apply reference
    steps it against the start-of-tick state of all of them.  The two
    agree on the body visited first. *)
Theorem C1_in_place_update_order (pause : bool) (speed : R) (fc : Z)
    (l : list Object) (i : nat) (o : Object) :
  nth_error l i = Some o ->
  let tick := snd (physics_loop pause speed fc [] l) in
  let reference := snd (snapshot_loop pause speed fc [] [] l) in
  (exists fc_i,
      nth_error tick i =
        Some (snd (step_obj pause speed fc_i
                     (firstn i tick ++ skipn (S i) l) o))) /\
  (exists fc_i,
      nth_error reference i =
        Some (snd (step_obj pause speed fc_i
                     (firstn i l ++ skipn (S i) l) o))) /\
  nth_error tick 0 = nth_error reference 0.
Proof.
  intros Hi tick reference. split; [|split].
  - exact (physics_loop_nth pause speed l fc [] i o Hi).
  - exact (snapshot_loop_nth pause speed l fc [] [] i o Hi).
  - unfold tick, reference. destruct l as [|o0 rest]; [reflexivity|].
    cbn [physics_loop snapshot_loop app].
    destruct (step_obj pause speed fc rest o0) as [fc' o0'].
    destruct (physics_loop_prefix pause speed rest fc' [o0'])
      as (s1 & H1 & _).
    destruct (snapshot_loop_prefix pause speed rest fc' [o0] [o0'])
      as (s2 & H2 & _).
    rewrite H1, H2. reflexivity.
Qed.

Lemma C1_in_place_update_order_witness :
  nth_error [moon; earth] 1 = Some earth /\
  exists fc_i,
    nth_error (snd (physics_loop false 1 0 [] [moon; earth])) 1 =
      Some (snd (step_obj false 1 fc_i
                   (firstn 1 (snd (physics_loop false 1 0 [] [moon; earth]))
                    ++ skipn 2 [moon; earth])
                   earth)).
Proof.
  split; [reflexivity|].
  apply (C1_in_place_update_order false 1 0 [moon; earth] 1 earth).
  reflexivity.
Defined.

(** * Further properties of the code *)

(** ** The body set over a run *)

Lemma map_back_length {A : Type} (f : A -> A) (l : list A) :
  length (map_back f l) = length l.
Proof.
  induction l as [|a l IH]; [reflexivity|].
  destruct l as [|b l]; [reflexivity|].
  change (map_back f (a :: b :: l)) with (a :: map_back f (b :: l)).
  change (S (length (map_back f (b :: l))) = S (length (b :: l))).
  f_equal. exact IH.
Qed.

Lemma map_back_nth {A : Type} (f : A -> A) (l : list A) :
  forall (i : nat) (a : A),
    nth_error l i = Some a ->
    nth_error (map_back f l) i =
      Some (if (S i =? length l)%nat then f a else a).
Proof.
  induction l as [|b l IH]; intros i a Hi.
  - destruct i; discriminate.
  - destruct l as [|b' l].
    + destruct i as [|i]; [|destruct i; discriminate].
      injection Hi as <-. reflexivity.
    + change (map_back f (b :: b' :: l)) with (b :: map_back f (b' :: l)).
      destruct i as [|i].
      * injection Hi as <-. reflexivity.
      * cbn [nth_error] in *. rewrite (IH i a Hi).
        change (length (b :: b' :: l)) with (S (length (b' :: l))).
        reflexivity.
Qed.

Lemma physics_loop_length (p : bool) (s : R) (fc : Z) (l : list Object) :
  length (snd (physics_loop p s fc [] l)) = length l.
Proof.
  destruct (physics_loop_prefix p s l fc []) as (st & Hs & Hl).
  rewrite Hs. exact Hl.
Qed.

Lemma frame_length (p : bool) (dt : R) (rb : bool) (w : World) :
  length (objs (frame p dt rb w)) = length (objs w).
Proof.
  unfold frame.
  pose proof (physics_loop_length p (simulationSpeed w) (frameCount w)
                (grow_back rb dt (objs w))) as H.
  destruct (physics_loop p (simulationSpeed w) (frameCount w) []
              (grow_back rb dt (objs w))) as [fc l].
  cbn [objs snd] in *. rewrite H. apply map_back_length.
Qed.

Lemma handle_length (w : World) (e : Event) :
  length (objs (handle w e)) =
    (length (objs w) + presses [e])%nat.
Proof.
  destruct e as [p dt rb|k a sh|b a]; cbn [handle].
  - rewrite frame_length. cbn. lia.
  - unfold keyCallback. cbn [objs]. rewrite map_back_length. cbn. lia.
  - unfold mouseButtonCallback.
    destruct b; destruct a; cbn [objs presses filter length];
      rewrite ?length_app, ?map_back_length; cbn [length]; lia.
Qed.

Lemma identity_view_stable : stable identity_view.
Proof. repeat split. Qed.

Lemma evolves_refl (o : Object) : evolves o o.
Proof. unfold evolves. auto. Qed.

Lemma evolves_trans (a b d : Object) :
  evolves a b -> evolves b d -> evolves a d.
Proof.
  unfold evolves. intros (H1 & H2 & H3 & H4) (K1 & K2 & K3 & K4).
  repeat split; try congruence; auto.
  - apply K4, H4. assumption.
  - destruct (H4 H) as [Hi Hm]. destruct (K4 Hi) as [_ Km]. congruence.
Qed.

Lemma nth_error_map_inv {A B : Type} (f : A -> B) (l : list A) (i : nat)
    (b : B) :
  nth_error (map f l) i = Some b ->
  exists a, nth_error l i = Some a /\ f a = b.
Proof.
  rewrite nth_error_map. destruct (nth_error l i) as [a|]; [|discriminate].
  intros H. injection H as <-. exists a. auto.
Qed.

Lemma handle_nth (w : World) (e : Event) (i : nat) (o : Object) :
  nth_error (objs w) i = Some o ->
  exists o',
    nth_error (objs (handle w e)) i = Some o' /\
    evolves o o' /\
    ((S i < length (objs w))%nat -> Initalizing o' = Initalizing o).
Proof.
  intros Hi. destruct e as [p dt rb|k a sh|b a]; cbn [handle].
  - pose proof (frame_stable identity_view p dt rb w identity_view_stable)
      as Hf.
    unfold grow_back in Hf.
    pose proof (map_back_nth
                  (fun o0 => if Initalizing o0 && rb then grow dt o0 else o0)
                  (objs w) i o Hi) as Hg.
    apply (f_equal (fun l => nth_error l i)) in Hf.
    rewrite (nth_error_map identity_view _ (map_back _ _)), Hg in Hf.
    cbn [option_map] in Hf.
    destruct (nth_error_map_inv _ _ _ _ Hf) as (o' & Ho' & Hv).
    exists o'. split; [exact Ho'|].
    assert (Hv' : Initalizing o' = Initalizing o /\
                  Launched o' = Launched o /\
                  density o' = density o /\ hasTrail o' = hasTrail o /\
                  (Initalizing o = false -> mass o' = mass o)).
    { unfold identity_view in Hv.
      destruct (S i =? length (objs w))%nat;
        [destruct (Initalizing o) eqn:Ei; cbn [andb] in Hv;
         [destruct rb|]|];
        cbn [grow set_mass set_radius Initalizing Launched mass density
             hasTrail] in Hv;
        injection Hv as H1 H2 H3 H4 H5;
        repeat split; try assumption; try congruence. }
    destruct Hv' as (H1 & H2 & H3 & H4 & H5).
    split; [|intros _; exact H1].
    unfold evolves. repeat split; try assumption; try congruence.
    apply H5. assumption.
  - unfold keyCallback. cbn [objs].
    match goal with
    | |- context [map_back ?g0 _] => set (g := g0)
    end.
    pose proof (map_back_nth g (objs w) i o Hi) as Hg.
    exists (if (S i =? length (objs w))%nat then g o else o).
    split; [exact Hg|].
    assert (He : evolves o (g o) /\ Initalizing (g o) = Initalizing o).
    { assert (Hf : identity_view (g o) = identity_view o).
      { unfold g.
        destruct (Initalizing o && press_or_repeat a); [|reflexivity].
        destruct k; try reflexivity; destruct (negb sh); reflexivity. }
      unfold identity_view in Hf. injection Hf as H1 H2 H3 H4 H5.
      unfold evolves. repeat split; try assumption; congruence. }
    destruct (S i =? length (objs w))%nat.
    + destruct He as [E1 E2]. split; [exact E1|intros _; exact E2].
    + split; [apply evolves_refl|reflexivity].
  - unfold mouseButtonCallback.
    destruct b; try (exists o; split; [exact Hi|];
                     split; [apply evolves_refl|reflexivity]).
    destruct a; try (exists o; split; [exact Hi|];
                     split; [apply evolves_refl|reflexivity]).
    + cbn [objs]. exists o. split.
      * rewrite nth_error_app1; [exact Hi|].
        apply nth_error_Some. congruence.
      * split; [apply evolves_refl|reflexivity].
    + cbn [objs].
      match goal with
      | |- context [map_back ?g _] =>
          pose proof (map_back_nth g (objs w) i o Hi) as Hg
      end.
      eexists. split; [exact Hg|].
      destruct (S i =? length (objs w))%nat eqn:E.
      * split.
        -- unfold evolves. repeat split; reflexivity.
        -- intros Hlt. apply Nat.eqb_eq in E. lia.
      * split; [apply evolves_refl|reflexivity].
Qed.

Lemma run_nth (es : list Event) : forall (w : World) (i : nat) (o : Object),
  nth_error (objs w) i = Some o ->
  exists o',
    nth_error (objs (run w es)) i = Some o' /\
    evolves o o' /\
    ((S i < length (objs w))%nat -> Initalizing o' = Initalizing o).
Proof.
  unfold run.
  induction es as [|e es IH]; intros w i o Hi; cbn [fold_left].
  - exists o. split; [exact Hi|]. split; [apply evolves_refl|reflexivity].
  - destruct (handle_nth w e i o Hi) as (o1 & H1 & E1 & S1).
    destruct (IH (handle w e) i o1 H1) as (o2 & H2 & E2 & S2).
    exists o2. split; [exact H2|]. split; [exact (evolves_trans _ _ _ E1 E2)|].
    intros Hlt. rewrite S2, S1; [reflexivity|exact Hlt|].
    rewrite handle_length. lia.
Qed.

(** X1.  No event ever removes a body: after any sequence of frames and
    callbacks the body set holds the bodies it began with plus exactly one
    body per left-button press. *)
Theorem body_count_over_run (w : World) (es : list Event) :
  length (objs (run w es)) = (length (objs w) + presses es)%nat.
Proof.
  unfold run. revert w.
  induction es as [|e es IH]; intros w; cbn [fold_left].
  - cbn. lia.
  - rewrite IH, handle_length.
    unfold presses. cbn [filter].
    destruct e as [p dt rb|k a sh|b a]; cbn [length]; try lia.
    destruct b; destruct a; cbn [length]; lia.
Qed.

(** X2.  The promotion out of creation is one-way and an Active body's
    identity is fixed: a body that is not [Initalizing] is still at the
    same index after any run, still not [Initalizing], with the same mass,
    density and trail flag, and still launched if it was. *)
Theorem active_body_is_permanent (w : World) (es : list Event) (i : nat)
    (o : Object) :
  nth_error (objs w) i = Some o ->
  Initalizing o = false ->
  exists o',
    nth_error (objs (run w es)) i = Some o' /\
    Initalizing o' = false /\ mass o' = mass o /\
    density o' = density o /\ hasTrail o' = hasTrail o /\
    (Launched o = true -> Launched o' = true).
Proof.
  intros Hi Ha.
  destruct (run_nth es w i o Hi) as (o' & Ho' & (E1 & E2 & E3 & E4) & _).
  destruct (E4 Ha) as [E5 E6].
  exists o'. repeat split; assumption.
Qed.

Lemma active_body_is_permanent_witness :
  exists o',
    nth_error
      (objs (run initial_World
               [EMouse BUTTON_LEFT PRESS; EFrame false (1 / 60) true;
                EKey KEY_UP PRESS false; EMouse BUTTON_LEFT RELEASE;
                EFrame true (1 / 60) false])) 1 = Some o' /\
    Initalizing o' = false /\ mass o' = mass earth /\
    density o' = density earth /\ hasTrail o' = hasTrail earth /\
    (Launched earth = true -> Launched o' = true).
Proof.
  apply (active_body_is_permanent initial_World _ 1 earth); reflexivity.
Defined.

(** X3.  A body in creation that is not the last element of [objs] (a
    second left press came before the release) can never be launched:
    the release only reaches [objs.back()], so the body is still
    [Initalizing] after any run. *)
Theorem buried_body_stays_in_creation (w : World) (es : list Event)
    (i : nat) (o : Object) :
  nth_error (objs w) i = Some o ->
  Initalizing o = true ->
  (S i < length (objs w))%nat ->
  exists o',
    nth_error (objs (run w es)) i = Some o' /\ Initalizing o' = true.
Proof.
  intros Hi Hc Hlt.
  destruct (run_nth es w i o Hi) as (o' & Ho' & _ & Hs).
  exists o'. split; [exact Ho'|]. rewrite (Hs Hlt). exact Hc.
Qed.

Lemma buried_body_stays_in_creation_witness :
  let w := run initial_World
               [EMouse BUTTON_LEFT PRESS; EMouse BUTTON_LEFT PRESS] in
  exists o',
    nth_error
      (objs (run w [EMouse BUTTON_LEFT RELEASE; EFrame false (1 / 60) false;
                    EMouse BUTTON_LEFT RELEASE])) 2 = Some o' /\
    Initalizing o' = true.
Proof.
  cbv zeta.
  apply (buried_body_stays_in_creation _ _ 2
           (set_Initalizing
              (new_Object (mkVec3 0 0 0) (mkVec3 0 0 0) initMass 3344) true)).
  - reflexivity.
  - reflexivity.
  - cbn. lia.
Defined.

(** ** Bodies in creation and lone bodies *)

Lemma interact_creation_other (p : bool) (s : R) (a b : Object) :
  Initalizing b = true -> interact p s a b = a.
Proof.
  intros Hb. unfold interact. rewrite Hb, andb_false_r. reflexivity.
Qed.

Lemma interact_creation_self (p : bool) (s : R) (a b : Object) :
  Initalizing a = true -> interact p s a b = a.
Proof. intros Ha. unfold interact. rewrite Ha. reflexivity. Qed.

Lemma pair_loop_active (p : bool) (s : R) (others : list Object) :
  forall o,
    fold_left (interact p s) others o =
    fold_left (interact p s) (active others) o.
Proof.
  induction others as [|b others IH]; intros o; [reflexivity|].
  cbn [fold_left active filter].
  destruct (Initalizing b) eqn:Hb; cbn [negb].
  - rewrite interact_creation_other by exact Hb. apply IH.
  - cbn [fold_left]. apply IH.
Qed.

Lemma pair_loop_creation (p : bool) (s : R) (others : list Object) :
  forall o, Initalizing o = true -> fold_left (interact p s) others o = o.
Proof.
  induction others as [|b others IH]; intros o Ho; [reflexivity|].
  cbn [fold_left]. rewrite interact_creation_self by exact Ho.
  apply IH. exact Ho.
Qed.

(** X4.  Bodies in creation take no part in the pair loop: the step of a
    body is the same whether or not the [Initalizing] bodies are among the
    others, and the step of a body that is itself [Initalizing] leaves its
    velocity untouched. *)
Theorem creation_excluded_from_pair_loop (p : bool) (s : R) (fc : Z)
    (others : list Object) (o : Object) :
  step_obj p s fc others o = step_obj p s fc (active others) o /\
  (Initalizing o = true ->
   velocity (snd (step_obj p s fc others o)) = velocity o).
Proof.
  split.
  - unfold step_obj. rewrite pair_loop_active. reflexivity.
  - intros Ho. unfold step_obj. rewrite pair_loop_creation by exact Ho.
    rewrite Ho. destruct p; cbn [negb].
    + reflexivity.
    + match goal with
      | |- velocity (snd (UpdatePos s fc ?x)) = _ =>
          destruct (UpdatePos_kinematics s fc x) as (_ & Hv & _)
      end.
      rewrite Hv. reflexivity.
Qed.

Lemma creation_excluded_from_pair_loop_witness :
  let o := set_Initalizing
             (new_Object (mkVec3 0 0 0) (mkVec3 0 0 0) initMass 3344) true in
  Initalizing o = true /\
  velocity (snd (step_obj false 1 0 [moon; earth] o)) = velocity o.
Proof.
  cbv zeta. split; [reflexivity|].
  apply (creation_excluded_from_pair_loop false 1 0 [moon; earth]).
  reflexivity.
Defined.

Lemma lone_frame (s : R) (fc : Z) (dt : R) (o : Object) :
  frame false dt false (mkWorld [o] s fc) =
    mkWorld [snd (step_obj false s fc [] o)] s
            (fst (step_obj false s fc [] o)).
Proof.
  unfold frame. cbn [objs simulationSpeed frameCount].
  rewrite grow_back_released. cbn [physics_loop app].
  destruct (step_obj false s fc [] o); reflexivity.
Qed.

Lemma lone_step (s : R) (fc : Z) (o : Object) :
  velocity (snd (step_obj false s fc [] o)) = velocity o /\
  position (snd (step_obj false s fc [] o)) =
    mkVec3 (vx (position o) + vx (velocity o) / 94 * s)
           (vy (position o) + vy (velocity o) / 94 * s)
           (vz (position o) + vz (velocity o) / 94 * s).
Proof.
  unfold step_obj. cbn [fold_left negb].
  match goal with
  | |- context [UpdatePos s fc ?x] =>
      destruct (UpdatePos_kinematics s fc x) as (Hp & Hv & _);
      assert (Hx : position x = position o /\ velocity x = velocity o)
        by (destruct (Initalizing o); split; reflexivity)
  end.
  destruct Hx as [Hxp Hxv]. rewrite Hv, Hp, Hxp, Hxv. split; reflexivity.
Qed.

(** X5.  A body alone in the world keeps its velocity: over [n] unpaused
    frames it moves in a straight line, each frame adding
    [velocity / 94 * simulationSpeed] to its position. *)
Theorem lone_body_moves_uniformly (n : nat) :
  forall (s : R) (fc : Z) (dt : R) (o : Object),
  exists o' fc',
    run (mkWorld [o] s fc) (repeat (EFrame false dt false) n) =
      mkWorld [o'] s fc' /\
    velocity o' = velocity o /\
    position o' =
      mkVec3 (vx (position o) + INR n * (vx (velocity o) / 94 * s))
             (vy (position o) + INR n * (vy (velocity o) / 94 * s))
             (vz (position o) + INR n * (vz (velocity o) / 94 * s)).
Proof.
  induction n as [|n IH]; intros s fc dt o.
  - exists o, fc. split; [reflexivity|]. split; [reflexivity|].
    destruct o as [[x y z] v]. cbn. f_equal; ring.
  - change (run (mkWorld [o] s fc) (repeat (EFrame false dt false) (S n)))
      with (run (frame false dt false (mkWorld [o] s fc))
                (repeat (EFrame false dt false) n)).
    rewrite lone_frame.
    destruct (lone_step s fc o) as [Hv Hp].
    destruct (IH s (fst (step_obj false s fc [] o)) dt
                 (snd (step_obj false s fc [] o)))
      as (o' & fc' & Hr & Hv' & Hp').
    exists o', fc'. split; [exact Hr|]. split; [congruence|].
    rewrite Hp', Hv, Hp. cbn [vx vy vz]. rewrite S_INR. f_equal; ring.
Qed.

(** ** What a paused frame does *)

Lemma paused_step_counter (s : R) (fc : Z) (others : list Object)
    (o : Object) :
  fst (step_obj true s fc others o) = fc.
Proof. reflexivity. Qed.

Lemma paused_loop_counter (s : R) (todo : list Object) :
  forall (fc : Z) (done : list Object),
    fst (physics_loop true s fc done todo) = fc.
Proof.
  induction todo as [|o rest IH]; intros fc done; cbn [physics_loop].
  - reflexivity.
  - pose proof (paused_step_counter s fc (done ++ rest) o) as H.
    destruct (step_obj true s fc (done ++ rest) o) as [fc' o'].
    cbn [fst] in H. subst fc'. apply IH.
Qed.

Lemma paused_step_trail (s : R) (fc : Z) (others : list Object)
    (o : Object) :
  trailSpheres (snd (step_obj true s fc others o)) = trailSpheres o.
Proof.
  unfold step_obj.
  destruct (pair_loop_velocity_only true s others o) as [v Hv]. rewrite Hv.
  cbn [negb snd Initalizing set_velocity].
  destruct (Initalizing o); reflexivity.
Qed.

(** X6.  A paused frame moves nothing and samples nothing: positions,
    trails, the trail counter and the speed are as before, and so are the
    masses unless the right button is held; the growth block is not
    gated by [pause], so a body in creation keeps growing while the
    simulation is paused. *)
Theorem paused_frame_frozen_state (dt : R) (rb : bool) (w : World) :
  map position (objs (frame true dt rb w)) = map position (objs w) /\
  map trailSpheres (objs (frame true dt rb w)) = map trailSpheres (objs w) /\
  frameCount (frame true dt rb w) = frameCount w /\
  simulationSpeed (frame true dt rb w) = simulationSpeed w /\
  map mass (objs (frame true dt false w)) = map mass (objs w) /\
  (forall l o, objs w = l ++ [o] -> Initalizing o = true ->
     map mass (objs (frame true dt true w)) =
       map mass l ++ [mass o * (1 + 1 * dt)]).
Proof.
  split; [apply paused_frame_positions|].
  split; [|split; [|split; [|split]]].
  - unfold frame.
    pose proof (physics_loop_map trailSpheres true paused_step_trail
                  (grow_back rb dt (objs w)) (simulationSpeed w)
                  (frameCount w) []) as H.
    destruct (physics_loop true (simulationSpeed w) (frameCount w) []
                (grow_back rb dt (objs w))) as [fc l].
    cbn [objs snd map app] in *. rewrite H.
    unfold grow_back. apply map_back_map.
    intros o. destruct (Initalizing o && rb); reflexivity.
  - unfold frame.
    pose proof (paused_loop_counter (simulationSpeed w)
                  (grow_back rb dt (objs w)) (frameCount w) []) as H.
    destruct (physics_loop true (simulationSpeed w) (frameCount w) []
                (grow_back rb dt (objs w))) as [fc l].
    exact H.
  - unfold frame.
    destruct (physics_loop true (simulationSpeed w) (frameCount w) []
                (grow_back rb dt (objs w))) as [fc l].
    reflexivity.
  - rewrite (frame_stable mass true dt false w) by (repeat split).
    rewrite grow_back_released. reflexivity.
  - intros l o Hw Ho.
    rewrite (frame_stable mass true dt true w) by (repeat split).
    rewrite Hw. unfold grow_back. rewrite map_back_snoc, map_app, Ho.
    reflexivity.
Qed.

Lemma paused_frame_frozen_state_witness :
  let w := run initial_World [EMouse BUTTON_LEFT PRESS] in
  map mass (objs (frame true (1 / 60) true w)) =
    map mass [moon; earth] ++ [initMass * (1 + 1 * (1 / 60))].
Proof.
  cbv zeta.
  apply (proj2 (proj2 (proj2 (proj2 (proj2
           (paused_frame_frozen_state (1 / 60) true
              (run initial_World [EMouse BUTTON_LEFT PRESS]))))))
           [moon; earth]
           (set_Initalizing
              (new_Object (mkVec3 0 0 0) (mkVec3 0 0 0) initMass 3344) true));
    reflexivity.
Defined.

Lemma apart_sym (a b : Object) : apart a b -> apart b a.
Proof.
  unfold apart. rewrite (pair_distance_sym b a). intros H. lra.
Qed.

Lemma set_velocity_same (o : Object) : set_velocity o (velocity o) = o.
Proof. destruct o; reflexivity. Qed.

Lemma interact_apart (s : R) (a b : Object) :
  apart a b -> interact true s a b = a.
Proof.
  intros Hab. unfold interact.
  destruct (negb (Initalizing a) && negb (Initalizing b)); [|reflexivity].
  destruct (Rgt_dec (pair_distance a b) 0) as [_|_]; [|reflexivity].
  cbn [negb]. rewrite CheckCollision_distance.
  destruct (Rgt_dec (radius b + radius a) (pair_distance a b)) as [H|_].
  - unfold apart in Hab. exfalso. lra.
  - rewrite vscale_one. apply set_velocity_same.
Qed.

Lemma paused_step_apart (s : R) (fc : Z) (others : list Object) (o : Object) :
  radius_ok o -> Forall (apart o) others ->
  step_obj true s fc others o = (fc, o).
Proof.
  intros Hr Ha. unfold step_obj.
  assert (Hf : fold_left (interact true s) others o = o).
  { induction Ha as [|b others Hb _ IH]; [reflexivity|].
    cbn [fold_left]. rewrite interact_apart by exact Hb. exact IH. }
  rewrite Hf. cbn [negb]. f_equal.
  destruct (Initalizing o); [|reflexivity].
  unfold radius_ok in Hr. rewrite <- Hr. destruct o; reflexivity.
Qed.

Lemma paused_loop_apart (s : R) (todo : list Object) :
  forall (fc : Z) (done : list Object),
    Forall radius_ok todo ->
    ForallOrdPairs apart todo ->
    Forall (fun o => Forall (apart o) done) todo ->
    physics_loop true s fc done todo = (fc, done ++ todo).
Proof.
  induction todo as [|o rest IH]; intros fc done Hr Hp Hd;
    cbn [physics_loop].
  - rewrite app_nil_r. reflexivity.
  - inversion Hr as [|? ? Hro Hrr]; subst.
    inversion Hp as [|? ? Hpo Hpr]; subst.
    inversion Hd as [|? ? Hdo Hdr]; subst.
    rewrite paused_step_apart;
      [|exact Hro|apply Forall_app; split; assumption].
    rewrite IH; [rewrite <- app_assoc; reflexivity|exact Hrr|exact Hpr|].
    rewrite Forall_forall in *. intros b Hb.
    apply Forall_app. split; [apply Hdr; exact Hb|].
    constructor; [|constructor]. apply apart_sym. apply Hpo. exact Hb.
Qed.

(** X7.  When no two bodies overlap and every stored radius follows the
    mass-radius formula, a paused frame with the right button up changes
    nothing at all: the world after the frame is the world before it. *)
Theorem paused_frame_identity (dt : R) (w : World) :
  Forall radius_ok (objs w) ->
  ForallOrdPairs apart (objs w) ->
  frame true dt false w = w.
Proof.
  intros Hr Hp. unfold frame. rewrite grow_back_released.
  rewrite paused_loop_apart; [destruct w; reflexivity|exact Hr|exact Hp|].
  rewrite Forall_forall. intros o _. constructor.
Qed.

Lemma paused_frame_identity_witness :
  let w := mkWorld [ball (mkVec3 0 0 0) (mkVec3 1 0 0);
                    ball (mkVec3 2 0 0) (mkVec3 0 0 0)] 1 0 in
  frame true (1 / 60) false w = w.
Proof.
  cbv zeta. apply paused_frame_identity.
  - repeat constructor.
  - constructor; [|repeat constructor].
    constructor; [|constructor].
    unfold apart. rewrite !ball_radius.
    unfold pair_distance, ball, new_Object. cbn [position vx vy vz].
    replace ((2 - 0) * (2 - 0) + (0 - 0) * (0 - 0) + (0 - 0) * (0 - 0))
      with (2 * 2) by ring.
    rewrite sqrt_square by lra. lra.
Defined.

Lemma vnorm_vscale_abs (k : R) (v : vec3) :
  vnorm (vscale k v) = Rabs k * vnorm v.
Proof.
  unfold vnorm, vscale. cbn [vx vy vz].
  replace (vx v * k * (vx v * k) + vy v * k * (vy v * k) +
           vz v * k * (vz v * k))
    with (Rsqr k * (vx v * vx v + vy v * vy v + vz v * vz v))
    by (unfold Rsqr; ring).
  rewrite sqrt_mult_alt by apply Rle_0_sqr.
  rewrite sqrt_Rsqr_abs. reflexivity.
Qed.

Lemma vnorm_nonneg (v : vec3) : 0 <= vnorm v.
Proof. apply sqrt_pos. Qed.

Lemma paused_interact_speed (s : R) (a b : Object) :
  vnorm (velocity (interact true s a b)) <= vnorm (velocity a).
Proof.
  unfold interact.
  destruct (negb (Initalizing a) && negb (Initalizing b)); [|lra].
  destruct (Rgt_dec (pair_distance a b) 0) as [_|_]; [|lra].
  cbn [negb velocity set_velocity]. rewrite vnorm_vscale_abs.
  pose proof (vnorm_nonneg (velocity a)) as Hn.
  destruct (CheckCollision_cases a b) as [H|H]; rewrite H.
  - rewrite Rabs_Ropp, Rabs_pos_eq by lra. nra.
  - rewrite Rabs_R1. lra.
Qed.

Lemma paused_step_speed (s : R) (fc : Z) (others : list Object) :
  forall o,
    vnorm (velocity (snd (step_obj true s fc others o))) <=
    vnorm (velocity o).
Proof.
  intros o. unfold step_obj. cbn [negb snd].
  assert (Hf : vnorm (velocity (fold_left (interact true s) others o)) <=
               vnorm (velocity o)).
  { revert o. induction others as [|b others IH]; intros o; [cbn; lra|].
    cbn [fold_left]. eapply Rle_trans; [apply IH|].
    apply paused_interact_speed. }
  destruct (Initalizing (fold_left (interact true s) others o)); exact Hf.
Qed.

Lemma physics_loop_Forall2 (R0 : Object -> Object -> Prop) (p : bool) :
  (forall s fc others o, R0 o (snd (step_obj p s fc others o))) ->
  forall todo s fc done,
    exists stepped,
      snd (physics_loop p s fc done todo) = done ++ stepped /\
      Forall2 R0 todo stepped.
Proof.
  intros HR todo.
  induction todo as [|o rest IH]; intros s fc done; cbn [physics_loop].
  - exists []. rewrite app_nil_r. split; [reflexivity|constructor].
  - pose proof (HR s fc (done ++ rest) o) as Ho.
    destruct (step_obj p s fc (done ++ rest) o) as [fc' o'].
    destruct (IH s fc' (done ++ [o'])) as (st & Hs & Hf).
    exists (o' :: st). rewrite Hs, <- app_assoc.
    split; [reflexivity|]. constructor; assumption.
Qed.

Lemma map_back_Forall2 {A : Type} (R0 : A -> A -> Prop) (f : A -> A)
    (l : list A) :
  (forall a, R0 a a) -> (forall a, R0 a (f a)) ->
  Forall2 R0 l (map_back f l).
Proof.
  intros Hrefl Hf. induction l as [|a l IH]; [constructor|].
  destruct l as [|b l].
  - constructor; [apply Hf|constructor].
  - change (map_back f (a :: b :: l)) with (a :: map_back f (b :: l)).
    constructor; [apply Hrefl|exact IH].
Qed.

(** X8.  Collision damping is the only thing a paused frame does to a
    velocity, and it can only shrink it: after a paused frame no body is
    faster than it was. *)
Theorem paused_frame_never_speeds_up (dt : R) (rb : bool) (w : World) :
  Forall2 (fun o o' => vnorm (velocity o') <= vnorm (velocity o))
          (objs w) (objs (frame true dt rb w)).
Proof.
  unfold frame.
  destruct (physics_loop_Forall2
              (fun o o' => vnorm (velocity o') <= vnorm (velocity o)) true
              (fun s fc others o => paused_step_speed s fc others o)
              (grow_back rb dt (objs w)) (simulationSpeed w) (frameCount w)
              []) as (st & Hs & Hf).
  destruct (physics_loop true (simulationSpeed w) (frameCount w) []
              (grow_back rb dt (objs w))) as [fc l].
  cbn [objs snd app] in *. subst l.
  assert (Hg : Forall2 (fun o o' => velocity o' = velocity o)
                       (objs w) (grow_back rb dt (objs w))).
  { unfold grow_back. apply map_back_Forall2; [reflexivity|].
    intros o. destruct (Initalizing o && rb); reflexivity. }
  revert Hg Hf. generalize (grow_back rb dt (objs w)). generalize (objs w).
  intros l1 l2 Hg. revert st.
  induction Hg as [|a b l1 l2 Hab _ IH]; intros st Hf.
  - inversion Hf. constructor.
  - inversion Hf as [|? d ? st' Hbd Hrest]; subst.
    constructor; [rewrite <- Hab; exact Hbd|apply IH; exact Hrest].
Qed.

(** ** The law of gravity of the pair loop *)

Lemma pair_distance_vnorm (a b : Object) :
  pair_distance a b = vnorm (vsub (position b) (position a)).
Proof. reflexivity. Qed.

(** X9.  The acceleration the pair loop computes for a body points from
    it towards the other body, and its magnitude is
    [G * m2 / (1000 * r)^2]: inverse-square in the distance, proportional
    to the other body's mass and independent of the body's own mass. *)
Theorem gravity_is_inverse_square (a b : Object) :
  mass a <> 0 -> 0 <= mass b -> 0 < pair_distance a b ->
  let r := pair_distance a b in
  pair_acc a b =
    vscale (G * mass b / (r * 1000 * (r * 1000)) / r)
           (vsub (position b) (position a)) /\
  vnorm (pair_acc a b) = G * mass b / (r * 1000 * (r * 1000)).
Proof.
  intros Ha Hb Hr r.
  assert (Hr0 : r <> 0) by (unfold r; lra).
  assert (Heq : pair_acc a b =
                vscale (G * mass b / (r * 1000 * (r * 1000)) / r)
                       (vsub (position b) (position a))).
  { unfold pair_acc, vscale, vsub. cbv zeta. cbn [vx vy vz].
    fold (pair_distance a b). fold r.
    f_equal; field; split; assumption. }
  split; [exact Heq|].
  rewrite Heq, vnorm_vscale.
  - rewrite <- pair_distance_vnorm. fold r. field. exact Hr0.
  - pose proof G_pos.
    apply Rmult_le_pos; [|left; apply Rinv_0_lt_compat; exact Hr].
    apply Rmult_le_pos; [nra|].
    left. apply Rinv_0_lt_compat. unfold r. nra.
Qed.

Lemma gravity_is_inverse_square_witness :
  mass moon <> 0 /\ 0 <= mass earth /\ 0 < pair_distance moon earth /\
  vnorm (pair_acc moon earth) =
    G * mass earth /
    (pair_distance moon earth * 1000 * (pair_distance moon earth * 1000)).
Proof.
  pose proof moon_mass_pos. pose proof earth_mass_pos.
  split; [lra|]. split; [lra|]. split; [exact moon_earth_distance|].
  apply (gravity_is_inverse_square moon earth);
    [lra|lra|exact moon_earth_distance].
Defined.

(** ** The trail counter and the trail flag *)

Lemma int_wrap_range (z : Z) : int_range (int_wrap z).
Proof.
  unfold int_range, int_wrap.
  pose proof (Z.mod_pos_bound (z + 2 ^ 31) (2 ^ 32) ltac:(lia)). lia.
Qed.

Lemma int_wrap_id (z : Z) : int_range z -> int_wrap z = z.
Proof.
  unfold int_range, int_wrap. intros H.
  rewrite Z.mod_small by lia. lia.
Qed.

Lemma int_wrap_add (a b : Z) : int_wrap (int_wrap a + b) = int_wrap (a + b).
Proof.
  unfold int_wrap.
  replace ((a + 2 ^ 31) mod 2 ^ 32 - 2 ^ 31 + b + 2 ^ 31)%Z
    with ((a + 2 ^ 31) mod 2 ^ 32 + b)%Z by lia.
  rewrite Zplus_mod_idemp_l. do 2 f_equal. lia.
Qed.

Lemma step_obj_counter (s : R) (fc : Z) (others : list Object) (o : Object) :
  fst (step_obj false s fc others o) =
    if hasTrail o then int_wrap (fc + 1) else fc.
Proof.
  pose proof (f_equal fst (step_obj_view s fc others o)) as H.
  cbn [fst] in H. rewrite H. unfold view_step, trail_view. cbn [fst snd].
  destruct (hasTrail o); cbn [negb]; [|reflexivity].
  destruct (Z.rem (int_wrap (fc + 1)) 5 =? 0)%Z; reflexivity.
Qed.

Lemma physics_loop_counter (s : R) (todo : list Object) :
  forall (fc : Z) (done : list Object),
    int_range fc ->
    fst (physics_loop false s fc done todo) =
      int_wrap (fc + Z.of_nat (trails todo)).
Proof.
  induction todo as [|o rest IH]; intros fc done Hfc; cbn [physics_loop].
  - unfold trails. cbn [filter length Z.of_nat]. rewrite Z.add_0_r.
    symmetry. apply int_wrap_id, Hfc.
  - pose proof (step_obj_counter s fc (done ++ rest) o) as Hc.
    pose proof (step_obj_stable hasTrail false s fc (done ++ rest) o
                  ltac:(repeat split)) as Hh.
    destruct (step_obj false s fc (done ++ rest) o) as [fc' o'].
    cbn [fst snd] in Hc, Hh. subst fc'.
    unfold trails. cbn [filter].
    destruct (hasTrail o).
    + rewrite IH by apply int_wrap_range.
      rewrite int_wrap_add. unfold trails. cbn [length].
      f_equal. lia.
    + apply IH. exact Hfc.
Qed.

Lemma trails_ext (l1 : list Object) : forall l2,
  map hasTrail l1 = map hasTrail l2 -> trails l1 = trails l2.
Proof.
  unfold trails.
  induction l1 as [|a l1 IH]; intros l2 Hm; destruct l2 as [|b l2];
    try discriminate; [reflexivity|].
  cbn [map] in Hm. injection Hm as Hab Hrest.
  cbn [filter]. rewrite Hab.
  destruct (hasTrail b); cbn [length]; rewrite (IH l2 Hrest); reflexivity.
Qed.

(** X10.  An unpaused frame advances the static counter of [UpdateTrail]
    once per trail-enabled body (with the wrap-around of [int]), whether
    or not a sample is taken; a paused frame does not advance it. *)
Theorem frame_advances_trail_counter (dt : R) (rb : bool) (w : World) :
  int_range (frameCount w) ->
  frameCount (frame false dt rb w) =
    int_wrap (frameCount w + Z.of_nat (trails (objs w))) /\
  frameCount (frame true dt rb w) = frameCount w.
Proof.
  intros Hfc. split.
  - unfold frame.
    pose proof (physics_loop_counter (simulationSpeed w)
                  (grow_back rb dt (objs w)) (frameCount w) [] Hfc) as H.
    destruct (physics_loop false (simulationSpeed w) (frameCount w) []
                (grow_back rb dt (objs w))) as [fc l].
    cbn [frameCount fst] in *. rewrite H. do 3 f_equal.
    apply trails_ext. unfold grow_back. apply map_back_map.
    intros o. destruct (Initalizing o && rb); reflexivity.
  - apply (paused_frame_frozen_state dt rb w).
Qed.

Lemma frame_advances_trail_counter_witness :
  int_range (frameCount five_trails) /\
  frameCount (frame false (1 / 60) false five_trails) =
    int_wrap (frameCount five_trails + Z.of_nat (trails (objs five_trails))).
Proof.
  split; [unfold int_range; cbn [frameCount five_trails]; lia|].
  apply (frame_advances_trail_counter (1 / 60) false five_trails).
  unfold int_range. cbn [frameCount five_trails]. lia.
Defined.

Lemma handle_hasTrail (w : World) (e : Event) :
  map hasTrail (objs (handle w e)) =
    map hasTrail (objs w) ++ repeat false (presses [e]).
Proof.
  destruct e as [p dt rb|k a sh|b a]; cbn [handle].
  - rewrite (frame_stable hasTrail p dt rb w) by (repeat split).
    unfold grow_back. rewrite map_back_map, app_nil_r; [reflexivity|].
    intros o. destruct (Initalizing o && rb); reflexivity.
  - unfold keyCallback. cbn [objs].
    rewrite map_back_map, app_nil_r; [reflexivity|].
    intros o. destruct (Initalizing o && press_or_repeat a); [|reflexivity].
    destruct k; try reflexivity; destruct (negb sh); reflexivity.
  - unfold mouseButtonCallback.
    destruct b; destruct a; cbn [objs presses filter length repeat];
      rewrite ?app_nil_r; try reflexivity.
    + rewrite map_app. reflexivity.
    + apply map_back_map. reflexivity.
Qed.

Lemma presses_cons (e : Event) (es : list Event) :
  presses (e :: es) = (presses [e] + presses es)%nat.
Proof.
  unfold presses. cbn [filter].
  destruct e as [p dt rb|k a sh|b a]; try reflexivity.
  destruct b; destruct a; reflexivity.
Qed.

Lemma trailless_step (p : bool) (s : R) (fc : Z) (others : list Object)
    (o : Object) :
  (hasTrail o = false -> trailSpheres o = []) ->
  hasTrail (snd (step_obj p s fc others o)) = false ->
  trailSpheres (snd (step_obj p s fc others o)) = [].
Proof.
  intros Ho Hh.
  rewrite (step_obj_stable hasTrail p s fc others o) in Hh
    by (repeat split).
  destruct p.
  - rewrite paused_step_trail. apply Ho, Hh.
  - pose proof (f_equal snd (step_obj_view s fc others o)) as Hv.
    cbn [snd] in Hv. unfold view_step, trail_view in Hv.
    cbn [fst snd] in Hv. rewrite Hh in Hv. cbn [negb snd] in Hv.
    injection Hv as _ Hlen. rewrite (Ho Hh) in Hlen.
    destruct (trailSpheres (snd (step_obj false s fc others o)));
      [reflexivity|discriminate].
Qed.

Lemma handle_trailless (e : Event) (w : World) :
  Forall (fun o => hasTrail o = false -> trailSpheres o = []) (objs w) ->
  Forall (fun o => hasTrail o = false -> trailSpheres o = [])
         (objs (handle w e)).
Proof.
  intros Hw. destruct e as [p dt rb|k a sh|b a]; simpl.
  - apply frame_Forall; [|intros dt0 o Ho; exact Ho|exact Hw].
    intros p0 s fc others o Ho. apply trailless_step. exact Ho.
  - unfold keyCallback. simpl. apply map_back_Forall; [|exact Hw].
    intros o Ho.
    destruct (Initalizing o && press_or_repeat a); [|exact Ho].
    destruct k; try exact Ho; destruct (negb sh); exact Ho.
  - unfold mouseButtonCallback.
    destruct b; try exact Hw; destruct a; try exact Hw; simpl.
    + apply Forall_app. split; [exact Hw|].
      constructor; [reflexivity|constructor].
    + apply map_back_Forall; [|exact Hw]. intros o Ho. exact Ho.
Qed.

(** X11.  The trail flag of a body never changes and every body created
    by a left press has it off; a body whose flag is off never receives a
    sample, so in any run only the bodies flagged at the start leave a
    trail. *)
Theorem only_flagged_bodies_leave_trails (w : World) (es : list Event) :
  Forall (fun o => hasTrail o = false -> trailSpheres o = []) (objs w) ->
  map hasTrail (objs (run w es)) =
    map hasTrail (objs w) ++ repeat false (presses es) /\
  Forall (fun o => hasTrail o = false -> trailSpheres o = [])
         (objs (run w es)).
Proof.
  intros Hw. split.
  - clear Hw. unfold run. revert w.
    induction es as [|e es IH]; intros w; cbn [fold_left].
    + cbn. rewrite app_nil_r. reflexivity.
    + rewrite IH, handle_hasTrail, (presses_cons e es), repeat_app, app_assoc.
      reflexivity.
  - apply run_Forall; [|exact Hw]. intros e w'. apply handle_trailless.
Qed.

Lemma only_flagged_bodies_leave_trails_witness :
  Forall (fun o => hasTrail o = false -> trailSpheres o = [])
         (objs initial_World) /\
  map hasTrail
      (objs (run initial_World
               [EMouse BUTTON_LEFT PRESS; EMouse BUTTON_LEFT RELEASE;
                EFrame false (1 / 60) false])) =
    map hasTrail (objs initial_World) ++
    repeat false
      (presses [EMouse BUTTON_LEFT PRESS; EMouse BUTTON_LEFT RELEASE;
                EFrame false (1 / 60) false]).
Proof.
  assert (H : Forall (fun o => hasTrail o = false -> trailSpheres o = [])
                     (objs initial_World)).
  { repeat constructor. }
  split; [exact H|].
  apply (only_flagged_bodies_leave_trails initial_World _ H).
Defined.

(** X12.  The sample [UpdatePos] appends is the position the body has
    just been moved to: when the counter reaches a multiple of five the
    trail of the updated body ends with its new position, and otherwise
    the trail is left as it was. *)
Theorem trail_sample_is_updated_position (s : R) (fc : Z) (o : Object) :
  hasTrail o = true ->
  let o' := snd (UpdatePos s fc o) in
  (Z.rem (int_wrap (fc + 1)) 5 = 0%Z ->
     exists t, trailSpheres o' = t ++ [position o']) /\
  (Z.rem (int_wrap (fc + 1)) 5 <> 0%Z ->
     trailSpheres o' = trailSpheres o).
Proof.
  intros Ht o'. unfold o', UpdatePos. cbv zeta.
  cbn [hasTrail set_radius set_position]. rewrite Ht.
  unfold UpdateTrail. cbn [hasTrail set_radius set_position]. rewrite Ht.
  cbn [negb]. cbv zeta. split; intros Hc.
  - rewrite Hc. cbn [Z.eqb snd trailSpheres set_trailSpheres position].
    cbn [trailSpheres set_radius set_position position].
    destruct (Z.of_nat _ >? maxTrailLength)%Z eqn:E.
    + destruct (trailSpheres o) as [|q t].
      * cbn in E. discriminate.
      * exists t. reflexivity.
    + eexists. reflexivity.
  - apply Z.eqb_neq in Hc. rewrite Hc. reflexivity.
Qed.

Lemma trail_sample_is_updated_position_witness :
  hasTrail moon = true /\ Z.rem (int_wrap (4 + 1)) 5 = 0%Z /\
  exists t,
    trailSpheres (snd (UpdatePos 1 4 moon)) =
      t ++ [position (snd (UpdatePos 1 4 moon))].
Proof.
  split; [reflexivity|]. split; [reflexivity|].
  apply (trail_sample_is_updated_position 1 4 moon); reflexivity.
Defined.

(** ** The keyboard *)

Lemma move_move (d e : vec3) (o : Object) :
  move e (move d o) = move (vadd d e) o.
Proof.
  destruct o as [[x y z] v i l m dn r t h].
  unfold move, set_position, vadd. cbn. f_equal. f_equal; ring.
Qed.

Lemma move_zero (d : vec3) (o : Object) :
  vx d = 0 -> vy d = 0 -> vz d = 0 -> move d o = o.
Proof.
  intros Hx Hy Hz. destruct o as [[x y z] v i l m dn r t h].
  unfold move, set_position, vadd. cbn. f_equal. f_equal; lra.
Qed.

Lemma map_back_compose {A : Type} (f g : A -> A) (l : list A) :
  map_back g (map_back f l) = map_back (fun a => g (f a)) l.
Proof.
  induction l as [|a l IH]; [reflexivity|].
  destruct l as [|b l]; [reflexivity|].
  change (map_back f (a :: b :: l)) with (a :: map_back f (b :: l)).
  change (map_back (fun a0 => g (f a0)) (a :: b :: l))
    with (a :: map_back (fun a0 => g (f a0)) (b :: l)).
  rewrite <- IH.
  destruct (map_back f (b :: l)) eqn:E; [|reflexivity].
  apply (f_equal (@length A)) in E. rewrite map_back_length in E.
  discriminate.
Qed.

Lemma map_back_id {A : Type} (f : A -> A) (l : list A) :
  (forall a, f a = a) -> map_back f l = l.
Proof.
  intros Hf. induction l as [|a l IH]; [reflexivity|].
  destruct l as [|b l]; [cbn; rewrite Hf; reflexivity|].
  change (map_back f (a :: b :: l)) with (a :: map_back f (b :: l)).
  rewrite IH. reflexivity.
Qed.

Lemma Initalizing_move (d : vec3) (o : Object) :
  Initalizing (move d o) = Initalizing o.
Proof. reflexivity. Qed.

(** X13.  The arrow keys act on the last body only, and only while it is
    in creation: once it is launched no key moves anything, the bodies
    before it are never touched, and an arrow followed by the opposite
    arrow (same action and shift state) puts every body back where it
    was. *)
Theorem arrow_keys_edit_the_body_in_creation (k : Key) (a : Action)
    (sh : bool) (w : World) :
  (forall l o, objs w = l ++ [o] -> Initalizing o = false ->
     objs (keyCallback k a sh w) = objs w) /\
  (forall l o, objs w = l ++ [o] ->
     exists o', objs (keyCallback k a sh w) = l ++ [o']) /\
  objs (keyCallback (opposite_key k) a sh (keyCallback k a sh w)) = objs w.
Proof.
  split; [|split].
  - intros l o Hw Ho. unfold keyCallback. cbn [objs].
    rewrite Hw, map_back_snoc, Ho. reflexivity.
  - intros l o Hw. unfold keyCallback. cbn [objs].
    rewrite Hw, map_back_snoc. eexists. reflexivity.
  - unfold keyCallback. cbn [objs]. rewrite map_back_compose.
    apply map_back_id. intros o.
    destruct (Initalizing o) eqn:Ho; cbn [andb];
      [|destruct k; cbn [opposite_key]; rewrite ?Ho; reflexivity].
    destruct (press_or_repeat a);
      [|destruct k; cbn [opposite_key]; rewrite ?Ho; reflexivity].
    destruct k; cbn [opposite_key]; rewrite ?Ho; try reflexivity;
      try (destruct sh; cbn [negb]);
      rewrite ?Initalizing_move, ?Ho; cbn [andb];
      rewrite ?move_move; apply move_zero; cbn [vadd vx vy vz]; lra.
Qed.

Lemma arrow_keys_edit_the_body_in_creation_witness :
  objs (keyCallback KEY_UP PRESS false initial_World) = objs initial_World /\
  exists o',
    objs (keyCallback KEY_LEFT REPEAT true
            (run initial_World [EMouse BUTTON_LEFT PRESS])) =
      [moon; earth] ++ [o'].
Proof.
  split.
  - apply (proj1 (arrow_keys_edit_the_body_in_creation
                    KEY_UP PRESS false initial_World) [moon] earth);
      reflexivity.
  - apply (proj1 (proj2 (arrow_keys_edit_the_body_in_creation
                           KEY_LEFT REPEAT true
                           (run initial_World [EMouse BUTTON_LEFT PRESS])))
             [moon; earth]
             (set_Initalizing
                (new_Object (mkVec3 0 0 0) (mkVec3 0 0 0) initMass 3344)
                true)).
    reflexivity.
Defined.

(** X14.  Only the press of a number key sets the simulation speed, and
    only to 1, 0.5, 2, 5 or 10: after any run the speed is one of these or
    the speed the run began with, so a positive speed stays positive. *)
Theorem simulation_speed_stays_positive (w : World) (es : list Event) :
  (simulationSpeed (run w es) = simulationSpeed w \/
   In (simulationSpeed (run w es)) [1; 5 / 10; 2; 5; 10]) /\
  (0 < simulationSpeed w -> 0 < simulationSpeed (run w es)).
Proof.
  assert (H : simulationSpeed (run w es) = simulationSpeed w \/
              In (simulationSpeed (run w es)) [1; 5 / 10; 2; 5; 10]).
  { unfold run. revert w.
    induction es as [|e es IH]; intros w; cbn [fold_left]; [left; reflexivity|].
    destruct (IH (handle w e)) as [Hs|Hs]; [|right; exact Hs].
    rewrite Hs. clear IH Hs.
    destruct e as [p dt rb|k a sh|b a]; cbn [handle].
    - left. unfold frame.
      destruct (physics_loop p (simulationSpeed w) (frameCount w) []
                  (grow_back rb dt (objs w))); reflexivity.
    - unfold keyCallback. cbn [simulationSpeed].
      destruct (is_press a); [|left; reflexivity].
      destruct k; cbn [In]; auto 10.
    - left. unfold mouseButtonCallback.
      destruct b; destruct a; reflexivity. }
  split; [exact H|]. intros Hw.
  destruct H as [H|H]; [rewrite H; exact Hw|].
  cbn [In] in H. destruct H as [H|[H|[H|[H|[H|[]]]]]]; rewrite <- H; lra.
Qed.

Lemma simulation_speed_stays_positive_witness :
  0 < simulationSpeed initial_World /\
  0 < simulationSpeed
        (run initial_World
           [EKey KEY_1 PRESS false; EFrame false (1 / 60) false;
            EKey KEY_4 RELEASE false]).
Proof.
  assert (H : 0 < simulationSpeed initial_World) by (cbn; lra).
  split; [exact H|].
  apply (proj2 (simulation_speed_stays_positive initial_World _)). exact H.
Defined.

(** ** The mass-radius formula *)

Lemma pow_pos (x y : R) : 0 < x -> 0 < pow x y.
Proof.
  intros Hx. unfold pow. destruct (Req_dec_T x 0) as [E|_]; [lra|].
  unfold Rpower. apply exp_pos.
Qed.

Lemma pow_third_cubed (x : R) : 0 < x -> pow x (1 / 3) ^ 3 = x.
Proof.
  intros Hx. unfold pow. destruct (Req_dec_T x 0) as [E|_]; [lra|].
  rewrite <- Rpower_pow by (unfold Rpower; apply exp_pos).
  rewrite Rpower_mult.
  replace (1 / 3 * INR 3) with 1 by (simpl; lra).
  apply Rpower_1. exact Hx.
Qed.

Lemma pow_third_increasing (x y : R) :
  0 <= x < y -> pow x (1 / 3) < pow y (1 / 3).
Proof.
  intros [Hx Hxy]. unfold pow at 1.
  destruct (Req_dec_T x 0) as [E|N].
  - apply pow_pos. lra.
  - unfold pow. destruct (Req_dec_T y 0) as [E|_]; [lra|].
    apply Rlt_Rpower_l; lra.
Qed.

Lemma radius_argument_pos (m d : R) :
  0 < m -> 0 < d -> 0 < 3 * m / d / (4 * PI_LIT).
Proof.
  intros Hm Hd.
  apply Rdiv_lt_0_compat; [|unfold PI_LIT; lra].
  apply Rdiv_lt_0_compat; lra.
Qed.

(** X15.  The mass-radius formula behaves like a radius: for a positive
    density it is positive on positive masses and strictly increasing in
    the mass, and the sphere of that radius (undoing the division by
    100000) filled at that density weighs the mass again. *)
Theorem radius_of_is_a_sphere_radius (d : R) :
  0 < d ->
  (forall m, 0 < m -> 0 < radius_of m d) /\
  (forall m1 m2, 0 <= m1 < m2 -> radius_of m1 d < radius_of m2 d) /\
  (forall m, 0 < m ->
     4 * PI_LIT / 3 * (radius_of m d * 100000) ^ 3 * d = m).
Proof.
  intros Hd. split; [|split].
  - intros m Hm. unfold radius_of.
    apply Rdiv_lt_0_compat; [|lra].
    apply pow_pos, radius_argument_pos; assumption.
  - intros m1 m2 [H1 H12]. unfold radius_of.
    apply Rmult_lt_compat_r; [lra|].
    apply pow_third_increasing. split.
    + apply Rmult_le_pos; [|unfold PI_LIT; lra].
      apply Rmult_le_pos; [lra|]. left. apply Rinv_0_lt_compat. exact Hd.
    + apply Rmult_lt_compat_r; [unfold PI_LIT; lra|].
      apply Rmult_lt_compat_r; [apply Rinv_0_lt_compat; exact Hd|lra].
  - intros m Hm. unfold radius_of.
    replace (pow (3 * m / d / (4 * PI_LIT)) (1 / 3) / 100000 * 100000)
      with (pow (3 * m / d / (4 * PI_LIT)) (1 / 3)) by field.
    rewrite pow_third_cubed by (apply radius_argument_pos; assumption).
    unfold PI_LIT. field. lra.
Qed.

Lemma radius_of_is_a_sphere_radius_witness :
  0 < 5515 /\ 0 < radius_of (mass earth) 5515 /\
  radius_of (mass moon) 5515 < radius_of (mass earth) 5515.
Proof.
  assert (Hd : 0 < 5515) by lra.
  pose proof moon_mass_pos as Hm. pose proof earth_mass_pos as He.
  split; [exact Hd|]. split.
  - apply (proj1 (radius_of_is_a_sphere_radius 5515 Hd)). exact He.
  - apply (proj1 (proj2 (radius_of_is_a_sphere_radius 5515 Hd))).
    split; [lra|].
    change (mass moon) with (734767309 / 10 ^ 8 * 10 ^ 22).
    change (mass earth) with (597219 / 10 ^ 5 * 10 ^ 24). lra.
Defined.



(** X17.  Integration is semi-implicit Euler: whatever the pair loop did
    to the velocity, an unpaused step moves the body by the velocity it
    ends the step with, [position' = position + velocity' / 94 * speed]. *)
Theorem step_moves_by_new_velocity (s : R) (fc : Z) (others : list Object)
    (o : Object) :
  let o' := snd (step_obj false s fc others o) in
  position o' =
    mkVec3 (vx (position o) + vx (velocity o') / 94 * s)
           (vy (position o) + vy (velocity o') / 94 * s)
           (vz (position o) + vz (velocity o') / 94 * s).
Proof.
  cbv zeta. unfold step_obj. cbn [negb].
  destruct (pair_loop_velocity_only false s others o) as [v Hv]. rewrite Hv.
  match goal with
  | |- context [UpdatePos s fc ?x] =>
      destruct (UpdatePos_kinematics s fc x) as (Hp & Hvel & _);
      assert (Hx : position x = position o /\ velocity x = v)
        by (cbn [Initalizing set_velocity]; destruct (Initalizing o);
            split; reflexivity)
  end.
  destruct Hx as [Hxp Hxv]. rewrite Hp, Hvel, Hxp, Hxv. reflexivity.
Qed.

(** ** The grid *)

Lemma flat_map_const_length {A B : Type} (f : A -> list B) (n : nat)
    (l : list A) :
  (forall a, length (f a) = n) ->
  length (flat_map f l) = (n * length l)%nat.
Proof.
  intros Hf. induction l as [|a l IH]; cbn [flat_map length]; [lia|].
  rewrite length_app, Hf, IH. lia.
Qed.

Lemma zrange_length (n : Z) : length (zrange n) = Z.to_nat n.
Proof. unfold zrange. rewrite length_map, length_seq. reflexivity. Qed.

Lemma grid_lines_length (size : R) (divisions : Z) :
  length (grid_lines size divisions) =
    (12 * (Z.to_nat divisions * Z.to_nat (divisions + 1)))%nat.
Proof.
  unfold grid_lines. cbv zeta. rewrite length_app.
  cbn [flat_map]. rewrite !app_nil_r.
  rewrite (flat_map_const_length _ (6 * Z.to_nat divisions)).
  - rewrite (flat_map_const_length _ (6 * Z.to_nat divisions)).
    + rewrite zrange_length. lia.
    + intros x. rewrite app_nil_r.
      rewrite (flat_map_const_length _ 6); [rewrite zrange_length; lia|].
      reflexivity.
  - intros z. rewrite (flat_map_const_length _ 6);
      [rewrite zrange_length; lia|reflexivity].
Qed.

Lemma displace_length (objs : list Object) (n : nat) :
  forall vertices : list R,
    (length vertices <= n)%nat ->
    length (displace objs vertices) = length vertices.
Proof.
  induction n as [n IH] using lt_wf_ind. intros vertices Hlen.
  destruct vertices as [|x [|y [|z rest]]]; try reflexivity.
  cbn [displace length]. do 3 f_equal.
  cbn [length] in Hlen. apply (IH (length rest)); lia.
Qed.

(** X18.  For [divisions] segments per line the grid holds
    [12 * divisions * (divisions + 1)] floats (none for a negative
    [divisions]), a multiple of three, so the displacement pass never
    reads past the end, and the pass returns an array of the same
    length. *)
Theorem grid_size (size : R) (divisions : Z) (objs : list Object) :
  length (grid_lines size divisions) =
    (3 * (4 * (Z.to_nat divisions * Z.to_nat (divisions + 1))))%nat /\
  length (CreateGridVertices size divisions objs) =
    length (grid_lines size divisions).
Proof.
  split.
  - rewrite grid_lines_length. lia.
  - unfold CreateGridVertices.
    apply (displace_length objs (length (grid_lines size divisions))). lia.
Qed.

Lemma plane_app (y : R) (l1 l2 : list R) :
  plane y l1 -> plane y l2 -> plane y (l1 ++ l2).
Proof.
  induction 1 as [|x z rest _ IH]; intros H2; [exact H2|].
  cbn [app]. constructor. apply IH. exact H2.
Qed.

Lemma plane_flat_map {A : Type} (y : R) (f : A -> list R) (l : list A) :
  (forall a, plane y (f a)) -> plane y (flat_map f l).
Proof.
  intros Hf. induction l as [|a l IH]; cbn [flat_map]; [constructor|].
  apply plane_app; [apply Hf|exact IH].
Qed.

Lemma grid_lines_plane (size : R) (divisions : Z) :
  plane (- (size / 2) * (3 / 10) + IZR 3 * (size / IZR divisions))
        (grid_lines size divisions).
Proof.
  unfold grid_lines. cbv zeta. apply plane_app.
  - cbn [flat_map]. rewrite app_nil_r.
    apply plane_flat_map. intros z. apply plane_flat_map. intros x.
    repeat constructor.
  - apply plane_flat_map. intros x. cbn [flat_map]. rewrite app_nil_r.
    apply plane_flat_map. intros z. repeat constructor.
Qed.

Lemma plane_nth (y : R) (l : list R) :
  plane y l ->
  forall (k : nat) (v : R), nth_error l (3 * k + 1) = Some v -> v = y.
Proof.
  induction 1 as [|x z rest _ IH]; intros k v Hk.
  - destruct (3 * k + 1)%nat; discriminate.
  - destruct k as [|k].
    + cbn in Hk. congruence.
    + replace (3 * S k + 1)%nat with (S (S (S (3 * k + 1)))) in Hk by lia.
      cbn [nth_error] in Hk. apply (IH k v Hk).
Qed.

Lemma plane_displace_empty (y : R) (l : list R) :
  plane y l ->
  forall (k : nat) (v : Fl),
    nth_error (displace [] l) (3 * k + 1) = Some v ->
    v = Some (y / 15 - 3000).
Proof.
  induction 1 as [|x z rest _ IH]; intros k v Hk.
  - destruct (3 * k + 1)%nat; discriminate.
  - destruct k as [|k].
    + cbn [displace Nat.mul Nat.add nth_error] in Hk.
      injection Hk as <-.
      unfold displaced_y, totalDisplacement. cbn [fold_left fadd vy].
      f_equal. lra.
    + replace (3 * S k + 1)%nat with (S (S (S (3 * k + 1)))) in Hk by lia.
      cbn [displace nth_error] in Hk. apply (IH k v Hk).
Qed.

(** X19.  Before displacement the grid is flat: every y entry is
    [-halfSize * 0.3 + 3 * step].  With no bodies the displacement pass
    keeps it flat, at that height divided by 15 minus 3000. *)
Theorem grid_is_flat_without_bodies (size : R) (divisions : Z) (k : nat) :
  let y0 := - (size / 2) * (3 / 10) + IZR 3 * (size / IZR divisions) in
  (forall v, nth_error (grid_lines size divisions) (3 * k + 1) = Some v ->
     v = y0) /\
  (forall v, nth_error (CreateGridVertices size divisions []) (3 * k + 1)
               = Some v ->
     v = Some (y0 / 15 - 3000)).
Proof.
  cbv zeta. split; intros v Hv.
  - exact (plane_nth _ _ (grid_lines_plane size divisions) k v Hv).
  - exact (plane_displace_empty _ _ (grid_lines_plane size divisions) k v Hv).
Qed.

Lemma grid_is_flat_without_bodies_witness :
  exists v,
    nth_error (grid_lines 10000 50) (3 * 0 + 1) = Some v /\
    v = - (10000 / 2) * (3 / 10) + IZR 3 * (10000 / IZR 50).
Proof.
  destruct (grid_lines_head 10000 50) as [rest Hg]; [lia|].
  assert (Hn : nth_error (grid_lines 10000 50) (3 * 0 + 1) =
               Some (- (10000 / 2) * (3 / 10) + IZR 3 * (10000 / IZR 50))).
  { rewrite Hg. reflexivity. }
  eexists. split; [exact Hn|].
  apply (proj1 (grid_is_flat_without_bodies 10000 50 0)). exact Hn.
Defined.

(** ** The displacement of a vertex *)

Lemma well_nonneg (p : vec3) (o : Object) (z : R) :
  well p o = Some z -> 0 <= z.
Proof.
  rewrite well_unfold. unfold fsqrt.
  destruct (Rlt_dec _ 0); [discriminate|].
  intros H. injection H as <-.
  pose proof (sqrt_pos (schwarzschild o * (distance_m p o - schwarzschild o))).
  lra.
Qed.

Lemma totalDisplacement_grows (p : vec3) (l : list Object) :
  forall t0 t : R,
    fold_left (fun t obj => fadd t (well p obj)) l (Some t0) = Some t ->
    t0 <= t.
Proof.
  induction l as [|o l IH]; intros t0 t H; cbn [fold_left] in H.
  - injection H as <-. lra.
  - destruct (well p o) as [z|] eqn:E; cbn [fadd] in H.
    + pose proof (well_nonneg p o z E). apply IH in H. lra.
    + rewrite totalDisplacement_nan in H. discriminate.
Qed.

Lemma totalDisplacement_poisoned (p : vec3) (l : list Object) (o : Object) :
  In o l -> well p o = None ->
  forall t0 : Fl,
    fold_left (fun t obj => fadd t (well p obj)) l t0 = None.
Proof.
  induction l as [|b l IH]; intros Hin Hw t0; [contradiction|].
  cbn [fold_left]. destruct Hin as [<-|Hin].
  - rewrite Hw. destruct t0; cbn [fadd]; apply totalDisplacement_nan.
  - apply IH; assumption.
Qed.

(** X20.  Bodies only ever lift a vertex: every contribution is
    [2 * sqrt(..) * 100 >= 0], so a finite displaced height is never
    below the height [y / 15 - 3000] the vertex has with no bodies. *)
Theorem displacement_never_lowers (p : vec3) (l : list Object) (y : R) :
  displaced_y p l = Some y -> vy p / 15 - 3000 <= y.
Proof.
  unfold displaced_y, totalDisplacement.
  destruct (fold_left (fun t obj => fadd t (well p obj)) l (Some 0))
    as [t|] eqn:E; cbn [fadd]; [|discriminate].
  intros H. injection H as <-.
  apply totalDisplacement_grows in E. lra.
Qed.

Lemma moon_from_origin :
  Forall (fun o => 0 <= mass o /\
                   schwarzschild o <= distance_m (mkVec3 0 0 0) o) [moon].
Proof.
  constructor; [|constructor].
  unfold distance_m, schwarzschild, moon, new_Object, set_hasTrail, vsub.
  cbn [position mass vx vy vz].
  replace (mkVec3 (3844 - 0) (0 - 0) (0 - 0)) with (mkVec3 3844 0 0)
    by (f_equal; ring).
  rewrite vnorm_x by lra. unfold G, c. split; lra.
Qed.

Lemma displacement_never_lowers_witness :
  exists y,
    displaced_y (mkVec3 0 0 0) [moon] = Some y /\ 0 / 15 - 3000 <= y.
Proof.
  destruct (totalDisplacement_finite (mkVec3 0 0 0) [moon]
              moon_from_origin 0) as [t Ht].
  exists ((0 + t) / 15 - 3000).
  assert (Hy : displaced_y (mkVec3 0 0 0) [moon] =
               Some ((0 + t) / 15 - 3000)).
  { unfold displaced_y, totalDisplacement. rewrite Ht. reflexivity. }
  split; [exact Hy|].
  apply (displacement_never_lowers (mkVec3 0 0 0) [moon] _ Hy).
Defined.

(** X21.  One body is enough to lose a vertex: if the square root of any
    one body is taken of a negative number, the displaced height is NaN
    whatever the other bodies contribute and wherever that body stands in
    [objs]. *)
Theorem one_nan_poisons_the_vertex (p : vec3) (l : list Object)
    (o : Object) :
  In o l -> well p o = None -> displaced_y p l = None.
Proof.
  intros Hin Hw. unfold displaced_y, totalDisplacement.
  rewrite (totalDisplacement_poisoned p l o Hin Hw). reflexivity.
Qed.

Lemma one_nan_poisons_the_vertex_witness :
  In earth [moon; earth; moon] /\ well (mkVec3 0 0 0) earth = None /\
  displaced_y (mkVec3 0 0 0) [moon; earth; moon] = None.
Proof.
  assert (Hw : well (mkVec3 0 0 0) earth = None).
  { apply well_at_centre; [apply earth_mass_pos|].
    unfold earth, new_Object, vsub. cbn [position vx vy vz].
    f_equal; ring. }
  assert (Hin : In earth [moon; earth; moon]) by (right; left; reflexivity).
  split; [exact Hin|]. split; [exact Hw|].
  apply (one_nan_poisons_the_vertex _ _ earth Hin Hw).
Defined.

(** ** Sphere meshes *)

Lemma sphericalToCartesian_norm (r theta phi : R) :
  vnorm (sphericalToCartesian r theta phi) = Rabs r.
Proof.
  unfold vnorm, sphericalToCartesian. cbn [vx vy vz].
  replace (r * sin theta * cos phi * (r * sin theta * cos phi) +
           r * cos theta * (r * cos theta) +
           r * sin theta * sin phi * (r * sin theta * sin phi))
    with (Rsqr r * (Rsqr (sin theta) * (Rsqr (sin phi) + Rsqr (cos phi)) +
                    Rsqr (cos theta)))
    by (unfold Rsqr; ring).
  rewrite sin2_cos2, Rmult_1_r, sin2_cos2, Rmult_1_r.
  apply sqrt_Rsqr_abs.
Qed.

Lemma Forall_flat_map_intro {A B : Type} (P : B -> Prop) (f : A -> list B)
    (l : list A) :
  (forall a, Forall P (f a)) -> Forall P (flat_map f l).
Proof.
  intros Hf. induction l as [|a l IH]; cbn [flat_map]; [constructor|].
  apply Forall_app. split; [apply Hf|exact IH].
Qed.

(** X22.  Every vertex of a sphere mesh lies on the sphere: each point
    [Draw] and [UpdateTrail] generate is at distance [|r|] from the
    centre, for any number of stacks and sectors. *)
Theorem mesh_vertices_on_sphere (stacks sectors : nat) (r : R) :
  Forall (fun v => vnorm v = Rabs r) (mesh_points stacks sectors r).
Proof.
  unfold mesh_points. apply Forall_flat_map_intro. intros i. cbv zeta.
  apply Forall_flat_map_intro. intros j.
  repeat constructor; apply sphericalToCartesian_norm.
Qed.

Lemma flatten_length (l : list vec3) :
  length (flatten l) = (3 * length l)%nat.
Proof.
  unfold flatten. apply flat_map_const_length. reflexivity.
Qed.

Lemma mesh_points_length (stacks sectors : nat) (r : R) :
  length (mesh_points stacks sectors r) = (6 * sectors * S stacks)%nat.
Proof.
  unfold mesh_points. rewrite (flat_map_const_length _ (6 * sectors)).
  - rewrite length_seq. reflexivity.
  - intros i. cbv zeta. rewrite (flat_map_const_length _ 6).
    + rewrite length_seq. reflexivity.
    + reflexivity.
Qed.

(** X23.  The stack loop runs from 0 to [stacks] inclusive, so a mesh has
    [stacks + 1] bands of [sectors] quads: [18 * sectors * (stacks + 1)]
    floats, that is 1980 for a body and 1296 for a trail sphere,
    independent of the radius. *)
Theorem mesh_vertex_count (o : Object) :
  (forall stacks sectors r,
     length (flatten (mesh_points stacks sectors r)) =
       (18 * sectors * (stacks + 1))%nat) /\
  length (Draw o) = 1980%nat /\
  length (trail_sphere_vertices o) = 1296%nat.
Proof.
  split; [|split].
  - intros stacks sectors r. rewrite flatten_length, mesh_points_length. lia.
  - unfold Draw. rewrite flatten_length, mesh_points_length. reflexivity.
  - unfold trail_sphere_vertices.
    rewrite flatten_length, mesh_points_length. reflexivity.
Qed.

(** ** The trail renderer *)

Lemma combine_seq_nth {A : Type} (l : list A) :
  forall (s i k : nat) (a : A),
    nth_error (combine (seq s (length l)) l) i = Some (k, a) ->
    k = (s + i)%nat /\ nth_error l i = Some a.
Proof.
  induction l as [|b l IH]; intros s i k a H.
  - destruct i; discriminate.
  - cbn [length seq combine] in H. destruct i as [|i].
    + cbn in H. injection H as <- <-. split; [lia|reflexivity].
    + cbn [nth_error] in H. destruct (IH (S s) i k a H) as [Hk Ha].
      split; [lia|exact Ha].
Qed.

Lemma combine_seq_snd {A : Type} (l : list A) : forall s,
  map snd (combine (seq s (length l)) l) = l.
Proof.
  induction l as [|b l IH]; intros s; [reflexivity|].
  cbn [length seq combine map snd]. rewrite IH. reflexivity.
Qed.

(** X24.  [DrawTrail] draws nothing for a body without trail or with an
    empty trail; otherwise it draws the samples in order, oldest first,
    the sample at index [i] of [n] with alpha [(i + 1) / n], so every
    alpha is in (0, 1] and the newest sample is fully opaque. *)
Theorem trail_fades_with_age (o : Object) :
  (hasTrail o = false \/ trailSpheres o = [] -> DrawTrail o = []) /\
  (hasTrail o = true ->
     map snd (DrawTrail o) = trailSpheres o /\
     forall i a p,
       nth_error (DrawTrail o) i = Some (a, p) ->
       a = INR (i + 1) / INR (length (trailSpheres o)) /\
       0 < a <= 1 /\
       (S i = length (trailSpheres o) -> a = 1)).
Proof.
  split.
  - intros [H|H]; unfold DrawTrail; rewrite H; [reflexivity|].
    cbn [length Nat.eqb]. rewrite orb_true_r. reflexivity.
  - intros Ht. unfold DrawTrail. rewrite Ht. cbn [negb orb].
    destruct (length (trailSpheres o) =? 0)%nat eqn:E.
    + apply Nat.eqb_eq, length_zero_iff_nil in E. rewrite E.
      split; [reflexivity|].
      intros i a p H. destruct i; discriminate.
    + apply Nat.eqb_neq in E. split.
      * rewrite map_map. cbn [snd].
        change (map (fun x : nat * vec3 => snd x)
                    (combine (seq 0 (length (trailSpheres o)))
                             (trailSpheres o)))
          with (map snd (combine (seq 0 (length (trailSpheres o)))
                                 (trailSpheres o))).
        apply combine_seq_snd.
      * intros i a p H.
        rewrite nth_error_map in H.
        destruct (nth_error (combine (seq 0 (length (trailSpheres o)))
                                     (trailSpheres o)) i)
          as [[k p']|] eqn:Hn; [|discriminate].
        cbn [option_map fst snd] in H. injection H as <- <-.
        destruct (combine_seq_nth _ _ _ _ _ Hn) as [Hk Hp]. cbn in Hk.
        subst k.
        assert (Hi : (i < length (trailSpheres o))%nat).
        { apply nth_error_Some. congruence. }
        assert (Hn0 : 0 < INR (length (trailSpheres o))).
        { apply lt_0_INR. lia. }
        assert (Hle : INR (i + 1) <= INR (length (trailSpheres o))).
        { apply le_INR. lia. }
        assert (Hpos : 0 < INR (i + 1)) by (apply lt_0_INR; lia).
        split; [reflexivity|]. split; [split|].
        -- apply Rdiv_lt_0_compat; assumption.
        -- apply (Rmult_le_reg_r (INR (length (trailSpheres o)))); [lra|].
           unfold Rdiv. rewrite Rmult_assoc, Rinv_l by lra. lra.
        -- intros Hs. replace (i + 1)%nat with (S i) by lia. rewrite Hs.
           field. lra.
Qed.

Lemma trail_fades_with_age_witness :
  let o := set_trailSpheres moon [mkVec3 1 0 0; mkVec3 2 0 0] in
  hasTrail o = true /\ map snd (DrawTrail o) = trailSpheres o.
Proof.
  cbv zeta. split; [reflexivity|].
  apply (proj2 (trail_fades_with_age
                  (set_trailSpheres moon [mkVec3 1 0 0; mkVec3 2 0 0]))).
  reflexivity.
Defined.

(** ** The camera *)

Lemma view_direction_norm (a b : R) :
  vnorm (mkVec3 (cos a * cos b) (sin b) (sin a * cos b)) = 1.
Proof.
  unfold vnorm. cbn [vx vy vz].
  replace (cos a * cos b * (cos a * cos b) + sin b * sin b +
           sin a * cos b * (sin a * cos b))
    with (Rsqr (cos b) * (Rsqr (sin a) + Rsqr (cos a)) + Rsqr (sin b))
    by (unfold Rsqr; ring).
  rewrite sin2_cos2, Rmult_1_r, Rplus_comm, sin2_cos2. apply sqrt_1.
Qed.

Lemma normalize_unit (v : vec3) : vnorm v = 1 -> normalize v = v.
Proof.
  intros H. unfold normalize. rewrite H, Rinv_1. apply vscale_one.
Qed.

Lemma clamp_pitch (x : R) :
  let c1 := if Rgt_dec x 89 then 89 else x in
  - 89 <= (if Rlt_dec c1 (- 89) then - 89 else c1) <= 89.
Proof.
  cbv zeta. destruct (Rgt_dec x 89) as [H|H].
  - destruct (Rlt_dec 89 (- 89)); lra.
  - destruct (Rlt_dec x (- 89)); lra.
Qed.

(** X25.  Whatever the mouse does, the pitch stays within [-89, 89]
    degrees and the view direction is the unit vector of the stored yaw
    and pitch (the normalisation changes nothing). *)
Theorem mouse_keeps_camera_ok (xpos ypos : R) (cam : Camera) :
  camera_ok (mouse_callback xpos ypos cam) /\
  vnorm (cameraFront (mouse_callback xpos ypos cam)) = 1.
Proof.
  assert (H : camera_ok (mouse_callback xpos ypos cam)).
  { unfold camera_ok, mouse_callback. cbv zeta. cbn [cameraFront yaw pitch].
    split.
    - apply normalize_unit, view_direction_norm.
    - apply clamp_pitch. }
  split; [exact H|].
  destruct H as [Hf _]. rewrite Hf. apply view_direction_norm.
Qed.

Lemma cos_pitch_pos (p : R) : - 89 <= p <= 89 -> 0 < cos (radians p).
Proof.
  intros [H1 H2]. unfold radians. pose proof PI_RGT_0 as Hpi.
  apply cos_gt_0; nra.
Qed.

Lemma initial_Camera_ok : camera_ok initial_Camera.
Proof.
  unfold camera_ok, initial_Camera, radians. cbn [cameraFront yaw pitch].
  split; [|lra].
  replace (- 90 * (PI / 180)) with (- (PI / 2)) by field.
  replace (0 * (PI / 180)) with 0 by ring.
  rewrite cos_neg, sin_neg, cos_PI2, sin_PI2, cos_0, sin_0.
  f_equal; ring.
Qed.

Lemma cam_handle_ok (cam : Camera) (e : CamEvent) :
  camera_ok cam -> camera_ok (cam_handle cam e).
Proof.
  intros H. destruct e as [x y|yo dt|k dt]; cbn [cam_handle].
  - apply mouse_keeps_camera_ok.
  - exact H.
  - exact H.
Qed.

Lemma side_axis (cam : Camera) :
  camera_ok cam ->
  normalize (vcross (cameraFront cam) cameraUp) =
    mkVec3 (- sin (radians (yaw cam))) 0 (cos (radians (yaw cam))).
Proof.
  intros [Hf Hp]. pose proof (cos_pitch_pos _ Hp) as Hc.
  rewrite Hf. unfold normalize, vcross, cameraUp, vscale, vnorm.
  cbn [vx vy vz].
  set (cy := cos (radians (yaw cam))). set (sy := sin (radians (yaw cam))).
  set (cp := cos (radians (pitch cam))) in *.
  set (sp := sin (radians (pitch cam))).
  assert (H1 : sy * sy + cy * cy = 1).
  { pose proof (sin2_cos2 (radians (yaw cam))) as H. unfold Rsqr in H.
    exact H. }
  assert (Hs : sqrt ((sp * 0 - sy * cp * 1) * (sp * 0 - sy * cp * 1) +
                     (sy * cp * 0 - cy * cp * 0) * (sy * cp * 0 - cy * cp * 0) +
                     (cy * cp * 1 - sp * 0) * (cy * cp * 1 - sp * 0)) = cp).
  { replace ((sp * 0 - sy * cp * 1) * (sp * 0 - sy * cp * 1) +
             (sy * cp * 0 - cy * cp * 0) * (sy * cp * 0 - cy * cp * 0) +
             (cy * cp * 1 - sp * 0) * (cy * cp * 1 - sp * 0))
      with (cp * cp * (sy * sy + cy * cy)) by ring.
    rewrite H1, Rmult_1_r. apply sqrt_square. lra. }
  rewrite Hs. f_equal; field; lra.
Qed.

(** X26.  In every state the camera can reach from the one [main] starts
    with, the pitch is within the clamp and the view direction is a unit
    vector; the clamp keeps the view direction off the vertical, so the
    strafe axis [normalize(cross(cameraFront, cameraUp))] is never the
    normalisation of a zero vector: it is a horizontal unit vector. *)
Theorem camera_axes_are_unit (es : list CamEvent) :
  let cam := cam_run initial_Camera es in
  let side := normalize (vcross (cameraFront cam) cameraUp) in
  - 89 <= pitch cam <= 89 /\
  vnorm (cameraFront cam) = 1 /\
  vnorm side = 1 /\ vy side = 0.
Proof.
  cbv zeta.
  assert (H : camera_ok (cam_run initial_Camera es)).
  { unfold cam_run. generalize initial_Camera_ok.
    generalize initial_Camera. induction es as [|e es IH]; intros cam Hc.
    - exact Hc.
    - cbn [fold_left]. apply IH, cam_handle_ok, Hc. }
  rewrite (side_axis _ H). destruct H as [Hf Hp].
  split; [exact Hp|]. split; [rewrite Hf; apply view_direction_norm|].
  split; [|reflexivity].
  unfold vnorm. cbn [vx vy vz].
  replace (- sin (radians (yaw (cam_run initial_Camera es))) *
           - sin (radians (yaw (cam_run initial_Camera es))) + 0 * 0 +
           cos (radians (yaw (cam_run initial_Camera es))) *
           cos (radians (yaw (cam_run initial_Camera es))))
    with (Rsqr (sin (radians (yaw (cam_run initial_Camera es)))) +
          Rsqr (cos (radians (yaw (cam_run initial_Camera es)))))
    by (unfold Rsqr; ring).
  rewrite sin2_cos2. apply sqrt_1.
Qed.

Lemma vsub_vadd (p d : vec3) : vsub (vadd p d) p = d.
Proof.
  destruct p, d. unfold vsub, vadd. cbn. f_equal; ring.
Qed.

Lemma vsub_vadd_back (p d : vec3) : vsub (vadd p d) d = p.
Proof.
  destruct p, d. unfold vsub, vadd. cbn. f_equal; ring.
Qed.

(** X27.  A scroll step moves the camera along the view direction by
    exactly [50000 * deltaTime] world units when the view direction is a
    unit vector; a zero offset moves nothing, and scrolling forward and
    then back with the same frame time returns the camera to where it
    was. *)
Theorem scroll_steps_along_view (yoffset deltaTime : R) (cam : Camera) :
  (yoffset = 0 -> scroll_callback yoffset deltaTime cam = cam) /\
  (0 < yoffset -> 0 <= deltaTime -> vnorm (cameraFront cam) = 1 ->
     vnorm (vsub (cameraPos (scroll_callback yoffset deltaTime cam))
                 (cameraPos cam)) = 50000 * deltaTime) /\
  (0 < yoffset ->
     cameraPos (scroll_callback (- yoffset) deltaTime
                  (scroll_callback yoffset deltaTime cam)) = cameraPos cam).
Proof.
  split; [|split].
  - intros H. unfold scroll_callback. cbv zeta.
    destruct (Rgt_dec yoffset 0); [lra|].
    destruct (Rlt_dec yoffset 0); [lra|]. destruct cam; reflexivity.
  - intros Hy Hd Hn. unfold scroll_callback. cbv zeta.
    destruct (Rgt_dec yoffset 0) as [_|N]; [|lra].
    cbn [cameraPos]. rewrite vsub_vadd, vnorm_vscale by lra.
    rewrite Hn. ring.
  - intros Hy. unfold scroll_callback. cbv zeta.
    destruct (Rgt_dec yoffset 0) as [_|N]; [|lra].
    destruct (Rgt_dec (- yoffset) 0) as [H|_]; [lra|].
    destruct (Rlt_dec (- yoffset) 0) as [_|N]; [|lra].
    cbn [cameraPos cameraFront]. apply vsub_vadd_back.
Qed.

Lemma scroll_steps_along_view_witness :
  0 < 1 /\ 0 <= 1 / 60 /\ vnorm (cameraFront initial_Camera) = 1 /\
  vnorm (vsub (cameraPos (scroll_callback 1 (1 / 60) initial_Camera))
              (cameraPos initial_Camera)) = 50000 * (1 / 60).
Proof.
  assert (Hn : vnorm (cameraFront initial_Camera) = 1).
  { destruct initial_Camera_ok as [Hf _]. rewrite Hf.
    apply view_direction_norm. }
  split; [lra|]. split; [lra|]. split; [exact Hn|].
  apply (proj1 (proj2 (scroll_steps_along_view 1 (1 / 60) initial_Camera)));
    [lra|lra|exact Hn].
Defined.

(** ** The sampling cadence in the worlds [main] can reach *)


















